(** * Analytics and recommendation backend: model and verified properties

    The development embeds the request handlers of [main.py]
    ([upsert_user_profile], [analytics_overview], [jaccard],
    [recommend_jobs], [success_rate], [track_event]) as Rocq functions over
    an in-memory document store, and proves the properties the
    specification states about them.

    Conventions of the model:
    - a stored document is a Python [dict] with string keys, here a
      [gmap string pyval]; the store-managed [_id] is kept beside it;
    - Python values are the dynamically typed [pyval]; operations that raise
      in Python ([TypeError], [AttributeError], [HTTPException]) return
      [Raise] in the [result] monad;
    - Python [float]s are idealised as exact rationals [Q] (no NaN, no
      infinities, no binary rounding); [round(x, 3)] is round-half-to-even
      on the third decimal;
    - strings are sequences of 8-bit characters. *)

From Stdlib Require Import QArith Qround Qabs Lqa.
From stdpp Require Import gmap strings list fin_maps fin_sets sorting.

Set Warnings "-register-all".
Close Scope Q_scope.

(** ** Python values *)

Inductive pyval :=
| VNone
| VBool (b : bool)
| VInt (n : Z)
| VFloat (x : Q)
| VStr (s : string)
| VList (l : list pyval)
| VDict (d : gmap string pyval).

(** [bool(v)]: the truth value Python gives to [v] in [if v], [not v] and
    [v or w]. *)
Definition truthy (v : pyval) : bool :=
  match v with
  | VNone => false
  | VBool b => b
  | VInt n => negb (n =? 0)%Z
  | VFloat x => negb (Qeq_bool x 0)
  | VStr s => negb (String.eqb s "")
  | VList l => match l with [] => false | _ => true end
  | VDict d => negb (bool_decide (d = ∅))
  end.

(** [a or b] *)
Definition py_or (a b : pyval) : pyval := if truthy a then a else b.

(** [type(v).__name__], as it appears in Python's error messages. *)
Definition type_name (v : pyval) : string :=
  match v with
  | VNone => "NoneType"
  | VBool _ => "bool"
  | VInt _ => "int"
  | VFloat _ => "float"
  | VStr _ => "str"
  | VList _ => "list"
  | VDict _ => "dict"
  end.

(** [isinstance(v, int)]; [bool] is a subclass of [int]. *)
Definition isinstance_int (v : pyval) : bool :=
  match v with VInt _ | VBool _ => true | _ => false end.

(** [isinstance(v, (int, float))] *)
Definition isinstance_int_float (v : pyval) : bool :=
  match v with VInt _ | VBool _ | VFloat _ => true | _ => false end.

(** The integer an [int] instance stands for ([True] is 1, [False] is 0). *)
Definition int_value (v : pyval) : option Z :=
  match v with
  | VInt n => Some n
  | VBool b => Some (Z.b2z b)
  | _ => None
  end.

(** The number an [int] or [float] instance stands for. *)
Definition num_value (v : pyval) : option Q :=
  match v with
  | VInt n => Some (inject_Z n)
  | VBool b => Some (inject_Z (Z.b2z b))
  | VFloat x => Some x
  | _ => None
  end.

(** ** Exceptions *)

Inductive pyerr :=
| TypeError (msg : string)
| AttributeError (msg : string).

Inductive exn :=
| HTTPException (status_code : Z) (detail : string)
| PyErr (e : pyerr).

(** [str(e)] for a built-in exception: its message. *)
Definition str_pyerr (e : pyerr) : string :=
  match e with TypeError m | AttributeError m => m end.

Inductive result (E A : Type) :=
| Ok (a : A)
| Raise (e : E).
Arguments Ok {E A} a.
Arguments Raise {E A} e.

Global Instance result_ret {E} : MRet (result E) := λ _ a, Ok a.
Global Instance result_bind {E} : MBind (result E) := λ _ _ f m,
  match m with Ok a => f a | Raise e => Raise e end.

(** Run a computation that raises built-in exceptions inside one that may
    also raise [HTTPException]. *)
Definition lift_py {A} (m : result pyerr A) : result exn A :=
  match m with Ok a => Ok a | Raise e => Raise (PyErr e) end.

(** [try: body  except Exception as e: raise HTTPException(500, str(e))] *)
Definition except_500 {A} (m : result pyerr A) : result exn A :=
  match m with
  | Ok a => Ok a
  | Raise e => Raise (HTTPException 500 (str_pyerr e))
  end.

(** [try: body  except HTTPException: raise
    except Exception as e: raise HTTPException(500, str(e))] *)
Definition reraise_http_except_500 {A} (m : result exn A) : result exn A :=
  match m with
  | Ok a => Ok a
  | Raise (HTTPException c d) => Raise (HTTPException c d)
  | Raise (PyErr e) => Raise (HTTPException 500 (str_pyerr e))
  end.

(** ** Hashable values: keys of Python sets and dicts

    Python compares keys with [==], under which [1], [1.0] and [True] are one
    key; a number is therefore keyed by its reduced fraction. *)

Inductive hkey :=
| KNone
| KNum (num : Z) (den : positive)
| KStr (s : string).

Global Instance hkey_eq_dec : EqDecision hkey.
Proof. solve_decision. Defined.

Global Instance hkey_countable : Countable hkey.
Proof.
  refine (inj_countable'
    (λ k, match k with
          | KNone => inl ()
          | KNum n d => inr (inl (n, d))
          | KStr s => inr (inr s)
          end)
    (λ x, match x with
          | inl _ => KNone
          | inr (inl (n, d)) => KNum n d
          | inr (inr s) => KStr s
          end) _).
  by intros [].
Defined.

Definition num_key (x : Q) : hkey :=
  let r := Qred x in KNum (Qnum r) (Qden r).

(** [hash(v)] succeeds on scalars and raises on lists and dicts. *)
Definition hash_key (v : pyval) : result pyerr hkey :=
  match v with
  | VNone => Ok KNone
  | VBool b => Ok (num_key (inject_Z (Z.b2z b)))
  | VInt n => Ok (num_key (inject_Z n))
  | VFloat x => Ok (num_key x)
  | VStr s => Ok (KStr s)
  | VList _ | VDict _ =>
      Raise (TypeError ("unhashable type: '" +:+ type_name v +:+ "'"))
  end.

(** [set(v)]: the set of the elements [v] iterates over. *)
Definition py_set (v : pyval) : result pyerr (gset hkey) :=
  match v with
  | VList l => ks ← mapM hash_key l; mret (list_to_set ks)
  | VStr s =>
      mret (list_to_set
              ((λ c, KStr (String c EmptyString)) <$> String.list_ascii_of_string s))
  | VDict d => mret (set_map KStr (dom d))
  | _ => Raise (TypeError ("'" +:+ type_name v +:+ "' object is not iterable"))
  end.

(** ** Rounding *)

(** Round to the nearest integer, ties to the even one. *)
Definition round_half_even (x : Q) : Z :=
  let f := Qfloor x in
  match (x - inject_Z f ?= 1 # 2)%Q with
  | Lt => f
  | Gt => (f + 1)%Z
  | Eq => if Z.even f then f else (f + 1)%Z
  end.

(** [round(x, 3)] *)
Definition round3 (x : Q) : Q := (inject_Z (round_half_even (x * 1000)) / 1000)%Q.

(** ** Similarity: [jaccard] *)

Definition jaccard (a b : pyval) : result pyerr Q :=
  sa ← py_set (py_or a (VList []));
  sb ← py_set (py_or b (VList []));
  if bool_decide (sa = ∅) && bool_decide (sb = ∅) then mret 0%Q
  else
    let inter := size (sa ∩ sb) in
    let union := size (sa ∪ sb) in
    mret (if bool_decide (union = 0) then 0%Q
          else (inject_Z (Z.of_nat inter) / inject_Z (Z.of_nat union))%Q).

(** A list of strings as a Python value. *)
Definition str_list (l : list string) : pyval := VList (VStr <$> l).

(** ** Strings *)

(** [c.lower()] on the 8-bit alphabet: the letters A to Z move to a to z. *)
Definition ascii_lower (c : Ascii.ascii) : Ascii.ascii :=
  let n := Ascii.nat_of_ascii c in
  if (65 <=? n) && (n <=? 90) then Ascii.ascii_of_nat (n + 32) else c.

(** [s.lower()] *)
Fixpoint lower (s : string) : string :=
  match s with
  | EmptyString => EmptyString
  | String c s' => String (ascii_lower c) (lower s')
  end.

(** [str(v).lower() == "success"].  Only a [str] can render as a spelling of
    "success": [str] of [None] and of a [bool] is "None", "True" or "False",
    of a number it holds digits, and of a list or a dict it is bracketed. *)
Definition str_lower_is_success (v : pyval) : bool :=
  match v with
  | VStr s => String.eqb (lower s) "success"
  | _ => false
  end.

(** ** The record store *)

(** A stored document: the store-managed [_id] and the fields. *)
Record document := Doc { doc_id : N; doc_fields : gmap string pyval }.

(** [d.get(k, dflt)]; [d.get(k)] is [dict_get d k VNone]. *)
Definition dict_get (d : gmap string pyval) (k : string) (dflt : pyval) : pyval :=
  default dflt (d !! k).

(** [v.get(k)] on a value that need not be a dict. *)
Definition py_get (v : pyval) (k : string) : result pyerr pyval :=
  match v with
  | VDict d => Ok (dict_get d k VNone)
  | _ =>
      Raise (AttributeError
               ("'" +:+ type_name v +:+ "' object has no attribute 'get'"))
  end.

(** [db[name]]: a collection that was never written reads as empty. *)
Definition collection (db : gmap string (list document)) (name : string)
  : list document :=
  default [] (db !! name).

(** The filter [{"user_id": uid}]. *)
Definition matches_user_id (uid : string) (d : document) : bool :=
  match doc_fields d !! "user_id" with
  | Some (VStr s) => String.eqb s uid
  | _ => false
  end.

(** Modelled from the spec: the store's [find_one(collection, filter)], which
    returns at most one matching document or none; the first match in store
    order. *)
Definition find_one (c : list document) (uid : string) : option document :=
  List.find (matches_user_id uid) c.

(** Modelled from the spec: the store's [find(collection, filter)] without a
    limit, all matching documents in store order. *)
Definition find_all (c : list document) (uid : string) : list document :=
  List.filter (matches_user_id uid) c.

(** Modelled from the spec: [get_documents(name, limit)] of the absent
    [database] module, an ordered sequence of up to [limit] documents. *)
Definition get_documents (db : gmap string (list document)) (name : string)
    (limit : Z) : list (gmap string pyval) :=
  take (Z.to_nat limit) (doc_fields <$> collection db name).

(** An identifier no document of the collection carries. *)
Definition fresh_id (c : list document) : N :=
  N.succ (foldr N.max 0%N (doc_id <$> c)).

(** Modelled from the spec: [create_document(name, data)] of the absent
    [database] module, [insert(collection, document)], which stores a new
    document. *)
Definition create_document (db : gmap string (list document)) (name : string)
    (data : gmap string pyval) : gmap string (list document) :=
  let c := collection db name in
  <[name := c ++ [Doc (fresh_id c) data]]> db.

(** Modelled from the spec: the store's
    [update_one({"_id": id}, {"$set": data})], which merges the given fields
    into the matched document. *)
Fixpoint update_one_set (c : list document) (id : N) (data : gmap string pyval)
  : list document :=
  match c with
  | [] => []
  | d :: c' =>
      if (doc_id d =? id)%N
      then Doc (doc_id d) (data ∪ doc_fields d) :: c'
      else d :: update_one_set c' id data
  end.

(** ** Request bodies *)

Definition opt_val {A} (f : A → pyval) (o : option A) : pyval :=
  match o with Some a => f a | None => VNone end.

Module TrackEventRequest.
Record t := {
  user_id : option string;
  event_type : string;
  page : option string;
  service : option string;
  properties : gmap string pyval;
  device : option string;
}.

Definition model_dump (p : t) : list (string * pyval) :=
  [ ("user_id", opt_val VStr (user_id p));
    ("event_type", VStr (event_type p));
    ("page", opt_val VStr (page p));
    ("service", opt_val VStr (service p));
    ("properties", VDict (properties p));
    ("device", opt_val VStr (device p)) ].
End TrackEventRequest.

Module UpsertUserProfileRequest.
Record t := {
  user_id : string;
  name : option string;
  email : option string;
  age : option Z;
  gender : option string;
  location : option string;
  education : option string;
  experience_years : option Q;
  skills : option (list string);
  channel : option string;
}.

Definition model_dump (p : t) : list (string * pyval) :=
  [ ("user_id", VStr (user_id p));
    ("name", opt_val VStr (name p));
    ("email", opt_val VStr (email p));
    ("age", opt_val VInt (age p));
    ("gender", opt_val VStr (gender p));
    ("location", opt_val VStr (location p));
    ("education", opt_val VStr (education p));
    ("experience_years", opt_val VFloat (experience_years p));
    ("skills", opt_val str_list (skills p));
    ("channel", opt_val VStr (channel p)) ].
End UpsertUserProfileRequest.

(** [v is not None] *)
Definition is_not_none (v : pyval) : bool :=
  match v with VNone => false | _ => true end.

(** The body [{"status": "ok"}]. *)
Record status_response := { status : string }.

(** ** Analytics endpoints *)

Definition track_event (db : gmap string (list document))
    (payload : TrackEventRequest.t)
  : gmap string (list document) * result exn status_response :=
  let event_doc : gmap string pyval :=
    list_to_map (TrackEventRequest.model_dump payload) in
  let event_doc :=
    <["type" := dict_get event_doc "event_type" VNone]>
      (delete "event_type" event_doc) in
  (create_document db "event" event_doc, Ok {| status := "ok" |}).

Definition upsert_user_profile (db : gmap string (list document))
    (payload : UpsertUserProfileRequest.t)
  : gmap string (list document) * result exn status_response :=
  let data : gmap string pyval :=
    list_to_map
      (List.filter (λ kv, is_not_none kv.2)
         (UpsertUserProfileRequest.model_dump payload)) in
  let users := collection db "userprofile" in
  (* [if existing:] a document that was found carries its [_id] and is
     truthy *)
  match find_one users (UpsertUserProfileRequest.user_id payload) with
  | Some existing =>
      (<["userprofile" := update_one_set users (doc_id existing) data]> db,
       Ok {| status := "ok" |})
  | None =>
      (create_document db "userprofile" data, Ok {| status := "ok" |})
  end.

(** A [for] loop whose body may raise: the first exception ends it. *)
Fixpoint foldlM {E A B} (f : B → A → result E B) (acc : B) (l : list A)
  : result E B :=
  match l with
  | [] => Ok acc
  | x :: l' => acc' ← f acc x; foldlM f acc' l'
  end.

(** [counts[k] = counts.get(k, 0) + 1] *)
Definition incr (k : hkey) (counts : gmap hkey nat) : gmap hkey nat :=
  <[k := default 0 (counts !! k) + 1]> counts.

(** [if v: counts[v] = counts.get(v, 0) + 1] *)
Definition tally (v : pyval) (counts : gmap hkey nat)
  : result pyerr (gmap hkey nat) :=
  if truthy v then k ← hash_key v; mret (incr k counts) else mret counts.

(** [(e.get("properties", {}) or {}).get("channel") or e.get("channel")] *)
Definition event_channel (e : gmap string pyval) : result pyerr pyval :=
  nested ← py_get (py_or (dict_get e "properties" (VDict ∅)) (VDict ∅)) "channel";
  mret (py_or nested (dict_get e "channel" VNone)).

(** The body of the loop over events, on [(channel_counts, page_counts)]. *)
Definition event_step (acc : gmap hkey nat * gmap hkey nat)
    (e : gmap string pyval) : result pyerr (gmap hkey nat * gmap hkey nat) :=
  ch ← event_channel e;
  channel_counts ← tally ch acc.1;
  let pg := dict_get e "page" VNone in
  page_counts ← tally pg acc.2;
  mret (channel_counts, page_counts).

Record demographics_t := {
  gender : gmap hkey nat;
  education : gmap hkey nat;
  location : gmap hkey nat;
  age_buckets : gmap string nat;
}.

(** [buckets[k] += 1] on a key the literal put there. *)
Definition bump (k : string) (buckets : gmap string nat) : gmap string nat :=
  alter (λ n, n + 1) k buckets.

(** The [isinstance(age, int)] block of the loop over users. *)
Definition count_age (age : pyval) (buckets : gmap string nat)
  : gmap string nat :=
  match int_value age with
  | Some n =>
      if (n <? 18)%Z then bump "<18" buckets
      else if (n <? 25)%Z then bump "18-24" buckets
      else if (n <? 35)%Z then bump "25-34" buckets
      else if (n <? 45)%Z then bump "35-44" buckets
      else bump "45+" buckets
  | None => buckets
  end.

(** The body of the loop over users. *)
Definition user_step (dm : demographics_t) (u : gmap string pyval)
  : result pyerr demographics_t :=
  g ← tally (dict_get u "gender" VNone) (gender dm);
  ed ← tally (dict_get u "education" VNone) (education dm);
  loc ← tally (dict_get u "location" VNone) (location dm);
  mret {| gender := g; education := ed; location := loc;
          age_buckets := count_age (dict_get u "age" VNone) (age_buckets dm) |}.

Definition initial_demographics : demographics_t :=
  {| gender := ∅; education := ∅; location := ∅;
     age_buckets :=
       <["<18" := 0]> (<["18-24" := 0]> (<["25-34" := 0]>
         (<["35-44" := 0]> (<["45+" := 0]> ∅)))) |}.

Record samples_t := { events : nat; users : nat }.

Record overview := {
  channels : gmap hkey nat;
  pages : gmap hkey nat;
  demographics : demographics_t;
  samples : samples_t;
}.

(** The aggregation proper, on the fetched events and users. *)
Definition summarize (evs usrs : list (gmap string pyval))
  : result pyerr overview :=
  counts ← foldlM event_step (∅, ∅) evs;
  dm ← foldlM user_step initial_demographics usrs;
  mret {| channels := counts.1; pages := counts.2; demographics := dm;
          samples := {| events := length evs; users := length usrs |} |}.

Definition analytics_overview (db : gmap string (list document)) (limit : Z)
  : result exn overview :=
  except_500
    (let evs := get_documents db "event" limit in
     let usrs := get_documents db "userprofile" limit in
     summarize evs usrs).

(** ** Recommendation engine *)

Module Recommendation.
Record t := { job_id : pyval; title : pyval; score : Q }.
End Recommendation.

Module Recommendations.
Record t := { user_id : string; recommendations : list Recommendation.t }.
End Recommendations.

(** [a < b] on two [int] or [float] instances. *)
Definition num_lt (a b : pyval) : bool :=
  match num_value a, num_value b with
  | Some x, Some y => match (x ?= y)%Q with Lt => true | _ => false end
  | _, _ => false
  end.

(** The body of the loop over jobs. *)
Definition score_job (user job : gmap string pyval)
  : result pyerr Recommendation.t :=
  let user_skills := dict_get user "skills" (VList []) in
  score ← jaccard user_skills (dict_get job "requirements" (VList []));
  let min_exp := dict_get job "min_experience" VNone in
  let score :=
    if isinstance_int_float min_exp
       && isinstance_int_float (dict_get user "experience_years" VNone)
    then
      if num_lt (dict_get user "experience_years" VNone) min_exp
      then (score * (8 # 10))%Q
      else score
    else score in
  mret {| Recommendation.job_id := dict_get job "job_id" VNone;
          Recommendation.title := dict_get job "title" VNone;
          Recommendation.score := round3 score |}.

(** Put [x] before the first entry whose score is not above its own. *)
Fixpoint insert_desc (x : Recommendation.t) (l : list Recommendation.t)
  : list Recommendation.t :=
  match l with
  | [] => [x]
  | y :: l' =>
      if Qle_bool (Recommendation.score y) (Recommendation.score x)
      then x :: y :: l'
      else y :: insert_desc x l'
  end.

(** [scored.sort(key=lambda x: x["score"], reverse=True)]: a stable sort,
    highest score first, equal scores in scan order. *)
Definition sort_desc (l : list Recommendation.t) : list Recommendation.t :=
  foldr insert_desc [] l.

(** [l[:k]]; a negative [k] counts from the end. *)
Definition slice_to {A} (k : Z) (l : list A) : list A :=
  if (0 <=? k)%Z then take (Z.to_nat k) l
  else take (length l - Z.to_nat (- k)) l.

Definition recommend_jobs (db : gmap string (list document)) (user_id : string)
    (top_k : Z) : result exn Recommendations.t :=
  reraise_http_except_500
    (* [if not user:] only [None] is falsy, a document carries its [_id] *)
    (match find_one (collection db "userprofile") user_id with
     | None => Raise (HTTPException 404 "User not found")
     | Some user =>
         let jobs := get_documents db "job" 1000 in
         scored ← lift_py (mapM (score_job (doc_fields user)) jobs);
         mret {| Recommendations.user_id := user_id;
                 Recommendations.recommendations :=
                   slice_to top_k (sort_desc scored) |}
     end).

(** ** Success rate *)

Module SuccessRate.
Record t := { user_id : string; total : nat; success : nat; rate : Q }.
End SuccessRate.

Definition success_rate (db : gmap string (list document)) (user_id : string)
  : result exn SuccessRate.t :=
  except_500
    (let outcomes := find_all (collection db "applicationoutcome") user_id in
     let total := length outcomes in
     let success :=
       length
         (List.filter
            (λ o, str_lower_is_success (dict_get (doc_fields o) "outcome" VNone))
            outcomes) in
     let rate :=
       if (total =? 0)%nat then 0%Q
       else (inject_Z (Z.of_nat success) / inject_Z (Z.of_nat total))%Q in
     mret {| SuccessRate.user_id := user_id; SuccessRate.total := total;
             SuccessRate.success := success; SuccessRate.rate := round3 rate |}).

(** ** Results *)

Global Instance result_fmap {E} : FMap (result E) := λ _ _ f m,
  match m with Ok a => Ok (f a) | Raise e => Raise e end.

(** The computation returns. *)
Definition is_Ok {E A} (m : result E A) : Prop :=
  match m with Ok _ => True | Raise _ => False end.

(** ** Vocabulary of the specification *)

(** The under-experience test of [score_job] as one boolean. *)
Definition under_experienced (user job : gmap string pyval) : bool :=
  let min_exp := dict_get job "min_experience" VNone in
  let exp := dict_get user "experience_years" VNone in
  isinstance_int_float min_exp && isinstance_int_float exp && num_lt exp min_exp.


(** Highest score first. *)
Definition score_ge (x y : Recommendation.t) : Prop :=
  (Recommendation.score y <= Recommendation.score x)%Q.

(** The field is absent, null or a list of strings, as the schemas declare
    [skills] and [requirements]. *)
Definition str_list_field (d : gmap string pyval) (k : string) : Prop :=
  ∀ v, d !! k = Some v → v = VNone ∨ ∃ l, v = str_list l.



(** The ages of the users whose [age] is an instance of [int], in scan
    order. *)
Definition int_ages (usrs : list (gmap string pyval)) : list Z :=
  omap (λ u, int_value (dict_get u "age" VNone)) usrs.

(** [lo <= n < hi], an absent bound being no bound. *)
Definition in_range (lo hi : option Z) (n : Z) : bool :=
  from_option (λ l, l <=? n)%Z true lo && from_option (λ h, n <? h)%Z true hi.

(** How many of [ages] lie in the half-open range. *)
Definition count_in (lo hi : option Z) (ages : list Z) : nat :=
  length (List.filter (in_range lo hi) ages).

(** The five age buckets with the given counts. *)
Definition bucket_map (a b c d e : nat) : gmap string nat :=
  <["<18" := a]> (<["18-24" := b]> (<["25-34" := c]>
    (<["35-44" := d]> (<["45+" := e]> ∅)))).

(** The nested field [properties.channel], when the event has one. *)
Definition nested_channel_field (e : gmap string pyval) : option pyval :=
  match e !! "properties" with
  | Some (VDict props) => props !! "channel"
  | _ => None
  end.

(** The channel of an event read by presence: the nested field when it is
    present, the top-level field only when the nested one is absent. *)
Definition claimed_channel (e : gmap string pyval) : option pyval :=
  match nested_channel_field e with
  | Some v => Some v
  | None => e !! "channel"
  end.

(** The channel of an event read by truth value: the nested value when it is
    truthy, the top-level value otherwise. *)
Definition chosen_channel (e : gmap string pyval) : pyval :=
  let nested := default VNone (nested_channel_field e) in
  if truthy nested then nested else default VNone (e !! "channel").

(** [v] is truthy and is the key [k]. *)
Definition keyed_by (k : hkey) (v : pyval) : bool :=
  truthy v
  && match hash_key v with Ok k' => bool_decide (k' = k) | Raise _ => false end.

(** The entry of a frequency table for a key seen [n] times. *)
Definition nonzero (n : nat) : option nat :=
  match n with 0 => None | S _ => Some n end.

(** The non-null value a request supplies for the field [k], if any. *)
Definition supplied (p : UpsertUserProfileRequest.t) (k : string)
  : option pyval :=
  match (list_to_map (UpsertUserProfileRequest.model_dump p)
           : gmap string pyval) !! k with
  | Some v => if is_not_none v then Some v else None
  | None => None
  end.

(** A value the frequency tables accept: anything but a non-empty list or
    dict. *)
Definition tallies (v : pyval) : Prop :=
  match v with
  | VList (_ :: _) => False
  | VDict d => d = ∅
  | _ => True
  end.

(** The event's [properties] is absent, a dict or falsy, and its channel and
    page are values the tables accept. *)
Definition event_well_formed (e : gmap string pyval) : Prop :=
  match e !! "properties" with
  | None | Some (VDict _) => True
  | Some v => truthy v = false
  end
  ∧ tallies (chosen_channel e)
  ∧ tallies (dict_get e "page" VNone).

(** The user's [gender], [education] and [location] are values the tables
    accept. *)
Definition user_well_formed (u : gmap string pyval) : Prop :=
  tallies (dict_get u "gender" VNone)
  ∧ tallies (dict_get u "education" VNone)
  ∧ tallies (dict_get u "location" VNone).

(** Store invariant: within a collection no two documents share an [_id]. *)
Definition unique_ids (db : gmap string (list document)) : Prop :=
  ∀ name, NoDup (doc_id <$> collection db name).

(** ** Sample data *)

Definition user_req : gmap string pyval :=
  list_to_map [("user_id", VStr "u1"); ("skills", str_list ["python"]);
               ("experience_years", VFloat 1)].

Definition job_req : gmap string pyval :=
  list_to_map [("job_id", VStr "j1"); ("title", VStr "Developer");
               ("requirements", str_list ["python"; "java"]);
               ("min_experience", VFloat 3)].

Definition job_dba : gmap string pyval :=
  list_to_map [("job_id", VStr "j2"); ("title", VStr "DBA");
               ("requirements", str_list ["sql"; "python"])].

(** One profile and two job postings. *)
Definition sample_db : gmap string (list document) :=
  create_document
    (create_document (create_document ∅ "userprofile" user_req) "job" job_req)
    "job" job_dba.

Definition outcome_doc (id : N) (uid label : string) : document :=
  Doc id (list_to_map [("user_id", VStr uid); ("job_id", VStr "j1");
                       ("outcome", VStr label)]).

(** Three outcomes of user u1 and one of user u2. *)
Definition outcomes_db : gmap string (list document) :=
  {[ "applicationoutcome" :=
       [outcome_doc 1 "u1" "SUCCESS"; outcome_doc 2 "u2" "success";
        outcome_doc 3 "u1" "failure"; outcome_doc 4 "u1" "Success"] ]}.

Definition user_aged (v : pyval) : gmap string pyval :=
  {[ "user_id" := VStr "u"; "age" := v ]}.

(** Users at the bucket boundaries, and three whose age is no [int]. *)
Definition age_users : list (gmap string pyval) :=
  [ user_aged (VInt 17); user_aged (VInt 18); user_aged (VInt 24);
    user_aged (VInt 25); user_aged (VInt 45); user_aged (VFloat (61 # 2));
    user_aged (VStr "40"); {[ "user_id" := VStr "u" ]} ].

(** An event whose nested channel is the empty string and whose top-level
    channel is "tv". *)
Definition event_empty_nested : gmap string pyval :=
  {[ "type" := VStr "click";
     "properties" := VDict {[ "channel" := VStr "" ]};
     "channel" := VStr "tv" ]}.

(** A request to [track_event] whose nested channel is the empty string. *)
Definition click_empty_channel : TrackEventRequest.t :=
  {| TrackEventRequest.user_id := None;
     TrackEventRequest.event_type := "click";
     TrackEventRequest.page := None;
     TrackEventRequest.service := None;
     TrackEventRequest.properties := {[ "channel" := VStr "" ]};
     TrackEventRequest.device := None |}.

(** The two submissions of the specification's example. *)
Definition profile_age_30 : UpsertUserProfileRequest.t :=
  {| UpsertUserProfileRequest.user_id := "u1";
     UpsertUserProfileRequest.name := None;
     UpsertUserProfileRequest.email := None;
     UpsertUserProfileRequest.age := Some 30%Z;
     UpsertUserProfileRequest.gender := None;
     UpsertUserProfileRequest.location := None;
     UpsertUserProfileRequest.education := None;
     UpsertUserProfileRequest.experience_years := None;
     UpsertUserProfileRequest.skills := None;
     UpsertUserProfileRequest.channel := None |}.

Definition profile_name_A : UpsertUserProfileRequest.t :=
  {| UpsertUserProfileRequest.user_id := "u1";
     UpsertUserProfileRequest.name := Some "A";
     UpsertUserProfileRequest.email := None;
     UpsertUserProfileRequest.age := None;
     UpsertUserProfileRequest.gender := None;
     UpsertUserProfileRequest.location := None;
     UpsertUserProfileRequest.education := None;
     UpsertUserProfileRequest.experience_years := None;
     UpsertUserProfileRequest.skills := None;
     UpsertUserProfileRequest.channel := None |}.

Definition db_age_30 : gmap string (list document) :=
  (upsert_user_profile ∅ profile_age_30).1.

(** ** Health check *)

(** ["✅ Set" if os.getenv(name) else "❌ Not Set"], on the value of the
    variable. *)
Definition env_report (value : option string) : pyval :=
  if truthy (opt_val VStr value) then VStr "✅ Set" else VStr "❌ Not Set".

(** [test_database]; [db] is [None] or the handle, given by what its
    [list_collection_names()] answers, and the two variables are what
    [os.getenv] reads.  Nothing in the outer [try] raises, the inner one
    catching the only call that may. *)
Definition test_database (db : option (result pyerr (list string)))
    (DATABASE_URL DATABASE_NAME : option string) : gmap string pyval :=
  let response : gmap string pyval :=
    list_to_map
      [ ("backend", VStr "✅ Running");
        ("database", VStr "❌ Not Available");
        ("database_url", VNone);
        ("database_name", VNone);
        ("connection_status", VStr "Not Connected");
        ("collections", VList []) ] in
  match db with
  | Some handle =>
      let response := <["database" := VStr "✅ Available"]> response in
      let response := <["database_url" := env_report DATABASE_URL]> response in
      let response := <["database_name" := env_report DATABASE_NAME]> response in
      let response := <["connection_status" := VStr "Connected"]> response in
      match handle with
      | Ok collections =>
          let response :=
            <["collections" := str_list (take 10 collections)]> response in
          <["database" := VStr "✅ Connected & Working"]> response
      | Raise e =>
          <["database" :=
              VStr ("⚠️ Connected but Error: "
                    +:+ String.substring 0 100 (str_pyerr e))]> response
      end
  | None => <["database" := VStr "⚠️ Available but not initialized"]> response
  end.

(** ** Vocabulary of the further properties *)

(** How many of the records have a truthy value keyed [k]. *)
Definition count_keyed {A} (val : A → pyval) (k : hkey) (l : list A) : nat :=
  length (List.filter (λ x, keyed_by k (val x)) l).

Definition scalar (v : pyval) : Prop :=
  match v with VList _ | VDict _ => False | _ => True end.

Definition set_like (v : pyval) : Prop :=
  match v with
  | VNone | VStr _ | VDict _ => True
  | VBool b => b = false
  | VInt n => n = 0%Z
  | VFloat x => (x == 0)%Q
  | VList l => Forall scalar l
  end.

(** The entries whose score is [q]. *)
Definition with_score (q : Q) (l : list Recommendation.t) : list Recommendation.t :=
  List.filter (λ rec, Qeq_bool (Recommendation.score rec) q) l.

(** The request body's non-null fields, as [upsert_user_profile] stores
    them. *)
Definition upsert_data (p : UpsertUserProfileRequest.t) : gmap string pyval :=
  list_to_map (List.filter (λ kv, is_not_none kv.2)
                 (UpsertUserProfileRequest.model_dump p)).

(** At most one profile per [user_id]. *)
Definition one_profile_per_user (db : gmap string (list document)) : Prop :=
  ∀ uid, length (find_all (collection db "userprofile") uid) ≤ 1.

(** The document [track_event] stores for a request. *)
Definition event_document (p : TrackEventRequest.t) : gmap string pyval :=
  let event_doc : gmap string pyval :=
    list_to_map (TrackEventRequest.model_dump p) in
  <["type" := dict_get event_doc "event_type" VNone]>
    (delete "event_type" event_doc).

(** ** Further sample data *)

(** Three events on two pages, through two channels. *)
Definition overview_events : list (gmap string pyval) :=
  [ {[ "type" := VStr "page_view"; "page" := VStr "home";
       "properties" := VDict {[ "channel" := VStr "tv" ]} ]};
    {[ "type" := VStr "click"; "page" := VStr "jobs";
       "properties" := VDict ∅ ]};
    {[ "type" := VStr "page_view"; "page" := VStr "home";
       "properties" := VDict {[ "channel" := VStr "radio" ]} ]} ].

(** Two users of one town. *)
Definition overview_users : list (gmap string pyval) :=
  [ {[ "user_id" := VStr "a"; "gender" := VStr "F";
       "education" := VStr "BSc"; "location" := VStr "Pune";
       "age" := VInt 30 ]};
    {[ "user_id" := VStr "b"; "gender" := VStr "M";
       "location" := VStr "Pune" ]} ].

(** A store whose only event has a string where the property map belongs. *)
Definition malformed_db : gmap string (list document) :=
  {[ "event" := [Doc 1 {[ "type" := VStr "click";
                          "properties" := VStr "tv" ]}] ]}.

(** One user, and three jobs of which the first and the last score alike. *)
Definition tie_db : gmap string (list document) :=
  {[ "userprofile" := [Doc 1 user_req];
     "job" := [ Doc 1 {[ "job_id" := VStr "A";
                         "requirements" := str_list ["python"; "java"] ]};
                Doc 2 {[ "job_id" := VStr "B";
                         "requirements" := str_list ["python"] ]};
                Doc 3 {[ "job_id" := VStr "C";
                         "requirements" := str_list ["python"; "sql"] ]} ] ]}.

(** A user without skills, and one job. *)
Definition no_skills_db : gmap string (list document) :=
  {[ "userprofile" := [Doc 1 {[ "user_id" := VStr "u1" ]}];
     "job" := [Doc 1 job_req] ]}.

(** A page view of the home page, reached through "tv". *)
Definition page_view_home : TrackEventRequest.t :=
  {| TrackEventRequest.user_id := Some "u1";
     TrackEventRequest.event_type := "page_view";
     TrackEventRequest.page := Some "home";
     TrackEventRequest.service := None;
     TrackEventRequest.properties := {[ "channel" := VStr "tv" ]};
     TrackEventRequest.device := None |}.

(** * Properties *)

(** ** Finite sets under an injective renaming *)

Global Instance KStr_inj : Inj (=) (=) KStr.
Proof. by intros s t [= ->]. Qed.

Section set_map_inj.
Context `{Countable A, Countable B} (f : A → B) `{!Inj (=) (=) f}.

Lemma size_set_map_inj (X : gset A) : size (set_map f X : gset B) = size X.
Proof.
  unfold set_map. rewrite size_list_to_set.
  - by rewrite length_fmap.
  - apply NoDup_fmap_2; [done | apply NoDup_elements].
Qed.

Lemma set_map_intersection_inj (X Y : gset A) :
  (set_map f (X ∩ Y) : gset B) = set_map f X ∩ set_map f Y.
Proof.
  apply set_eq. intros y. rewrite elem_of_intersection, !elem_of_map.
  setoid_rewrite elem_of_intersection.
  split.
  - intros (x & -> & ? & ?). split; exists x; done.
  - intros [(x & -> & ?) (x' & Heq & ?)]. apply (inj f) in Heq. subst x'.
    eauto.
Qed.

Lemma set_map_empty_iff (X : gset A) : (set_map f X : gset B) = ∅ ↔ X = ∅.
Proof.
  rewrite <-!(leibniz_equiv_iff (A:=gset _)), <-!size_empty_iff.
  by rewrite size_set_map_inj.
Qed.
End set_map_inj.

(** ** The similarity of two lists of strings *)

Lemma mapM_hash_key_str (l : list string) :
  mapM hash_key (VStr <$> l) = Ok (KStr <$> l).
Proof. induction l as [|s l IH]; [done|]. cbn. by rewrite IH. Qed.

Lemma py_set_str_list (l : list string) :
  py_set (py_or (str_list l) (VList []))
  = Ok (set_map KStr (list_to_set l : gset string)).
Proof.
  assert (py_set (str_list l) = Ok (set_map KStr (list_to_set l : gset string)))
    as Hl.
  { unfold py_set, str_list. rewrite mapM_hash_key_str. cbn.
    by rewrite (list_to_set_fmap_L (C:=gset string) (D:=gset hkey)). }
  destruct l as [|s l]; [done | exact Hl].
Qed.

(** Once both arguments iterate, [jaccard] is a function of the two sets. *)
Lemma jaccard_of_sets (a b : pyval) (sa sb : gset hkey) :
  py_set (py_or a (VList [])) = Ok sa →
  py_set (py_or b (VList [])) = Ok sb →
  jaccard a b =
    Ok (if bool_decide (sa = ∅ ∧ sb = ∅) then 0%Q
        else (inject_Z (Z.of_nat (size (sa ∩ sb)))
              / inject_Z (Z.of_nat (size (sa ∪ sb))))%Q).
Proof.
  intros Ha Hb. unfold jaccard. rewrite Ha, Hb. cbn.
  destruct (decide (sa = ∅ ∧ sb = ∅)) as [[-> ->]|Hne].
  - by rewrite !bool_decide_eq_true_2.
  - rewrite (bool_decide_eq_false_2 _ Hne).
    destruct (bool_decide (sa = ∅) && bool_decide (sb = ∅)) eqn:Hboth.
    { apply andb_prop in Hboth as [?%bool_decide_eq_true ?%bool_decide_eq_true].
      by destruct Hne. }
    rewrite bool_decide_eq_false_2; [done|].
    intros Hz. apply size_empty_iff, leibniz_equiv in Hz.
    apply empty_union_L in Hz. by destruct Hne.
Qed.

Lemma jaccard_str_lists (a b : list string) :
  let A : gset string := list_to_set a in
  let B : gset string := list_to_set b in
  jaccard (str_list a) (str_list b) =
    Ok (if bool_decide (A = ∅ ∧ B = ∅) then 0%Q
        else (inject_Z (Z.of_nat (size (A ∩ B)))
              / inject_Z (Z.of_nat (size (A ∪ B))))%Q).
Proof.
  intros A B.
  rewrite (jaccard_of_sets _ _ _ _ (py_set_str_list a) (py_set_str_list b)).
  fold A B.
  rewrite <-set_map_union_L, <-set_map_intersection_inj by apply _.
  rewrite !size_set_map_inj by apply _.
  f_equal.
  assert (bool_decide ((set_map KStr A : gset hkey) = ∅
                       ∧ (set_map KStr B : gset hkey) = ∅)
          = bool_decide (A = ∅ ∧ B = ∅)) as ->; [|done].
  apply bool_decide_ext. by rewrite !set_map_empty_iff by apply _.
Qed.

(** C1. For lists of strings [a] and [b], [jaccard] returns the size of the
    intersection over the size of the union of the two lists seen as sets,
    and 0 when both sets are empty; two lists with the same elements, in any
    order and with any repetitions, give the same result. *)
Theorem jaccard_is_set_ratio (a b : list string) :
  let A : gset string := list_to_set a in
  let B : gset string := list_to_set b in
  jaccard (str_list a) (str_list b) =
    Ok (if bool_decide (A = ∅ ∧ B = ∅) then 0%Q
        else (inject_Z (Z.of_nat (size (A ∩ B)))
              / inject_Z (Z.of_nat (size (A ∪ B))))%Q)
  ∧ jaccard (str_list []) (str_list []) = Ok 0%Q
  ∧ ∀ a' b' : list string,
      (∀ x, x ∈ a' ↔ x ∈ a) → (∀ x, x ∈ b' ↔ x ∈ b) →
      jaccard (str_list a') (str_list b') = jaccard (str_list a) (str_list b).
Proof.
  intros A B. split; [apply jaccard_str_lists|].
  split; [done|].
  intros a' b' Ha Hb. rewrite !jaccard_str_lists.
  assert (list_to_set a' = A) as ->.
  { apply set_eq. intros x. subst A. rewrite !elem_of_list_to_set. apply Ha. }
  assert (list_to_set b' = B) as ->.
  { apply set_eq. intros x. subst B. rewrite !elem_of_list_to_set. apply Hb. }
  done.
Qed.

Lemma jaccard_is_set_ratio_witness :
  jaccard (str_list ["sql"; "python"]) (str_list ["java"; "sql"; "sql"])
  = jaccard (str_list ["python"; "sql"; "python"]) (str_list ["sql"; "java"]).
Proof.
  apply (jaccard_is_set_ratio ["python"; "sql"; "python"] ["sql"; "java"]).
  - intros x. rewrite !elem_of_cons, !elem_of_nil. tauto.
  - intros x. rewrite !elem_of_cons, !elem_of_nil. tauto.
Defined.

Example jaccard_both_empty : jaccard (str_list []) (str_list []) = Ok 0%Q.
Proof. reflexivity. Qed.

Example jaccard_identical :
  ∃ q, jaccard (str_list ["python"; "sql"]) (str_list ["python"; "sql"]) = Ok q
       ∧ (q == 1)%Q.
Proof. eexists. split; reflexivity. Qed.

Example jaccard_half :
  jaccard (str_list ["python"]) (str_list ["python"; "java"]) = Ok (1 # 2)%Q.
Proof. reflexivity. Qed.

(** C9. [jaccard] is symmetric on lists of strings. *)
Theorem jaccard_symmetric (a b : list string) :
  jaccard (str_list a) (str_list b) = jaccard (str_list b) (str_list a).
Proof.
  rewrite !jaccard_str_lists.
  set (A := list_to_set a : gset string). set (B := list_to_set b : gset string).
  replace (B ∩ A) with (A ∩ B) by apply (comm_L (∩)).
  replace (B ∪ A) with (A ∪ B) by apply (comm_L (∪)).
  replace (bool_decide (B = ∅ ∧ A = ∅)) with (bool_decide (A = ∅ ∧ B = ∅))
    by (apply bool_decide_ext; tauto).
  done.
Qed.

(** ** Rounding *)


Lemma round_half_even_range (x : Q) (n : Z) :
  (0 <= x)%Q → (x <= inject_Z n)%Q → (0 <= round_half_even x <= n)%Z.
Proof.
  intros H0 Hn.
  pose proof (Qfloor_resp_le _ _ H0) as Hf0.
  pose proof (Qfloor_resp_le _ _ Hn) as Hfn. rewrite Qfloor_Z in Hfn.
  change (Qfloor 0) with 0%Z in Hf0.
  unfold round_half_even.
  destruct (Z.eq_dec (Qfloor x) n) as [Heq|Hne].
  - assert (x - inject_Z (Qfloor x) <= 0)%Q as Hle by (rewrite Heq; lra).
    destruct (Qcompare_spec (x - inject_Z (Qfloor x)) (1 # 2)) as [He|Hl|Hg];
      [lra | lia | lra].
  - destruct (x - inject_Z (Qfloor x) ?= 1 # 2)%Q; [destruct (Z.even _)| |]; lia.
Qed.



Lemma round3_range (x : Q) : (0 <= x <= 1)%Q → (0 <= round3 x <= 1)%Q.
Proof.
  intros [H0 H1].
  destruct (round_half_even_range (x * 1000) 1000) as [Hlo Hhi];
    [lra | change (inject_Z 1000) with 1000%Q; lra |].
  unfold round3, Qdiv. change (/ 1000)%Q with (1 # 1000)%Q.
  rewrite Zle_Qle in Hlo, Hhi.
  change (inject_Z 0) with 0%Q in Hlo. change (inject_Z 1000) with 1000%Q in Hhi.
  split; lra.
Qed.

(** ** Scores *)

Lemma jaccard_range (a b : pyval) (j : Q) :
  jaccard a b = Ok j → (0 <= j <= 1)%Q.
Proof.
  unfold jaccard.
  destruct (py_set (py_or a _)) as [sa|]; [|done].
  destruct (py_set (py_or b _)) as [sb|]; [|done]. cbn.
  destruct (_ && _); [intros [= <-]; lra|].
  case_bool_decide as Hu; [intros [= <-]; lra|].
  intros [= <-].
  assert (size (sa ∩ sb) ≤ size (sa ∪ sb)) as Hle.
  { apply subseteq_size. intros x. rewrite elem_of_intersection, elem_of_union.
    tauto. }
  assert (0 < inject_Z (Z.of_nat (size (sa ∪ sb))))%Q as Hpos.
  { change 0%Q with (inject_Z 0). rewrite <-Zlt_Qlt. lia. }
  split.
  - apply Qle_shift_div_l; [done|]. rewrite Qmult_0_l.
    change 0%Q with (inject_Z 0). rewrite <-Zle_Qle. lia.
  - apply Qle_shift_div_r; [done|]. rewrite Qmult_1_l. rewrite <-Zle_Qle. lia.
Qed.



Lemma score_job_eq (user job : gmap string pyval) :
  score_job user job =
    (j ← jaccard (dict_get user "skills" (VList []))
                 (dict_get job "requirements" (VList []));
     mret {| Recommendation.job_id := dict_get job "job_id" VNone;
             Recommendation.title := dict_get job "title" VNone;
             Recommendation.score :=
               round3 (if under_experienced user job
                       then (j * (8 # 10))%Q else j) |}).
Proof.
  unfold score_job, under_experienced.
  destruct (jaccard _ _) as [j|]; [|done]. cbn.
  do 3 f_equal.
  destruct (isinstance_int_float _), (isinstance_int_float _), (num_lt _ _); done.
Qed.



(** ** Ranking *)

Lemma insert_desc_Permutation x l : insert_desc x l ≡ₚ x :: l.
Proof.
  induction l as [|y l IH]; [done|]. cbn.
  destruct (Qle_bool _ _); [done|]. rewrite IH. apply Permutation_swap.
Qed.

Lemma sort_desc_Permutation l : sort_desc l ≡ₚ l.
Proof.
  induction l as [|x l IH]; [done|]. cbn.
  rewrite insert_desc_Permutation. by f_equiv.
Qed.

Lemma insert_desc_sorted x l :
  StronglySorted score_ge l → StronglySorted score_ge (insert_desc x l).
Proof.
  induction 1 as [|y l Hl IH Hy]; cbn.
  - by repeat constructor.
  - destruct (Qle_bool _ _) eqn:Hle.
    + apply Qle_bool_iff in Hle.
      constructor; [by constructor|]. constructor; [done|].
      eapply Forall_impl; [exact Hy|]. unfold score_ge. intros z Hz. cbn in Hz. lra.
    + constructor; [done|].
      rewrite insert_desc_Permutation. constructor; [|done].
      unfold score_ge.
      destruct (Qlt_le_dec (Recommendation.score y) (Recommendation.score x)) as [Hlt|Hge];
        [|done].
      apply Qlt_le_weak, Qle_bool_iff in Hlt. congruence.
Qed.

Lemma sort_desc_sorted l : StronglySorted score_ge (sort_desc l).
Proof.
  induction l as [|x l IH]; cbn; [constructor | by apply insert_desc_sorted].
Qed.

Lemma slice_to_prefix {A} (k : Z) (l : list A) : slice_to k l `prefix_of` l.
Proof. unfold slice_to. destruct (0 <=? k)%Z; apply prefix_take. Qed.

Lemma slice_to_length {A} (k : Z) (l : list A) :
  (0 ≤ k)%Z → length (slice_to k l) = Z.to_nat k `min` length l.
Proof.
  intros Hk. unfold slice_to. rewrite (proj2 (Z.leb_le 0 k) Hk).
  apply length_take.
Qed.

Lemma mapM_Ok_Forall2 {E A B} (f : A → result E B) (l : list A) (k : list B) :
  mapM f l = Ok k → Forall2 (λ x y, f x = Ok y) l k.
Proof.
  revert k. induction l as [|x l IH]; intros k; cbn.
  - intros [= <-]. constructor.
  - destruct (f x) as [y|] eqn:Hy; [|done]. cbn.
    destruct (mapM f l) as [k'|]; [|done]. cbn. intros [= <-].
    constructor; [done | by apply IH].
Qed.

Lemma mapM_Ok_total {E A B} (f : A → result E B) (l : list A) :
  Forall (λ x, ∃ y, f x = Ok y) l → ∃ k, mapM f l = Ok k.
Proof.
  induction 1 as [|x l [y Hy] _ [k Hk]]; cbn; [by eexists|].
  rewrite Hy. cbn. rewrite Hk. cbn. by eexists.
Qed.

Lemma recommend_jobs_Ok_inv db uid top_k r :
  recommend_jobs db uid top_k = Ok r →
  ∃ user scored,
    find_one (collection db "userprofile") uid = Some user
    ∧ mapM (score_job (doc_fields user)) (get_documents db "job" 1000) = Ok scored
    ∧ r = {| Recommendations.user_id := uid;
             Recommendations.recommendations := slice_to top_k (sort_desc scored) |}.
Proof.
  unfold recommend_jobs.
  destruct (find_one _ _) as [user|]; [|done].
  destruct (mapM _ _) as [scored|e] eqn:Hm; cbn; [|done].
  intros [= <-]. eauto.
Qed.

Lemma jaccard_str_list_fields (user job : gmap string pyval) :
  str_list_field user "skills" → str_list_field job "requirements" →
  ∃ j, jaccard (dict_get user "skills" (VList []))
               (dict_get job "requirements" (VList [])) = Ok j.
Proof.
  intros Hu Hj.
  assert (∀ d k, str_list_field d k →
            ∃ l, py_set (py_or (dict_get d k (VList [])) (VList []))
                 = Ok (set_map KStr (list_to_set l : gset string))) as Hset.
  { intros d k Hd. unfold dict_get. destruct (d !! k) as [v|] eqn:Hv; cbn.
    - destruct (Hd v Hv) as [->|[l ->]].
      + by exists [].
      + exists l. apply py_set_str_list.
    - by exists []. }
  destruct (Hset _ _ Hu) as [a Ha], (Hset _ _ Hj) as [b Hb].
  rewrite (jaccard_of_sets _ _ _ _ Ha Hb). by eexists.
Qed.

Lemma score_job_range (user job : gmap string pyval) (r : Recommendation.t) :
  score_job user job = Ok r →
  (0 <= Recommendation.score r <= 1)%Q.
Proof.
  rewrite score_job_eq.
  destruct (jaccard _ _) as [j|] eqn:Hj; [|done]. cbn. intros [= <-]. cbn.
  apply jaccard_range in Hj. apply round3_range.
  destruct (under_experienced user job); lra.
Qed.

(** C3. For an existing user and [top_k >= 0], the recommendations are sorted
    by non-increasing score, there are at most [top_k] of them and at most as
    many as jobs were scanned, and [top_k = 0] gives none; the request
    succeeds whenever the skills and requirements are lists of strings. *)
Theorem recommend_jobs_ranked db uid top_k user :
  find_one (collection db "userprofile") uid = Some user →
  (0 ≤ top_k)%Z →
  let jobs := get_documents db "job" 1000 in
  (∀ r, recommend_jobs db uid top_k = Ok r →
     let recs := Recommendations.recommendations r in
     StronglySorted score_ge recs
     ∧ length recs ≤ Z.to_nat top_k
     ∧ length recs ≤ length jobs
     ∧ (top_k = 0%Z → recs = []))
  ∧ (str_list_field (doc_fields user) "skills" →
     Forall (λ job, str_list_field job "requirements") jobs →
     ∃ r, recommend_jobs db uid top_k = Ok r).
Proof.
  intros Hfind Hk jobs. split.
  - intros r (user' & scored & Hfind' & Hm & ->)%recommend_jobs_Ok_inv. cbn.
    fold jobs in Hm.
    apply mapM_Ok_Forall2, Forall2_length in Hm.
    assert (length (sort_desc scored) = length jobs) as Hlen
      by (by rewrite sort_desc_Permutation).
    rewrite slice_to_length by done. repeat split; [|lia|lia|].
    + destruct (slice_to_prefix top_k (sort_desc scored)) as [rest Hrest].
      pose proof (sort_desc_sorted scored) as Hs. rewrite Hrest in Hs.
      by apply StronglySorted_app_1_l in Hs.
    + by intros ->.
  - intros Hskills Hreqs. unfold recommend_jobs. rewrite Hfind. fold jobs.
    destruct (mapM_Ok_total (score_job (doc_fields user)) jobs) as [scored ->].
    + eapply Forall_impl; [exact Hreqs|]. intros job Hjob. cbn in Hjob.
      destruct (jaccard_str_list_fields _ _ Hskills Hjob) as [j Hj].
      rewrite score_job_eq, Hj. by eexists.
    + by eexists.
Qed.

(** C4. A [user_id] that matches no profile makes the request fail with
    status 404, and every failure of a request whose user exists carries
    status 500: the two conditions never coincide. *)
Theorem recommend_jobs_unknown_user db uid top_k :
  (find_one (collection db "userprofile") uid = None →
   recommend_jobs db uid top_k = Raise (HTTPException 404 "User not found"))
  ∧ (∀ user e,
       find_one (collection db "userprofile") uid = Some user →
       recommend_jobs db uid top_k = Raise e →
       ∃ detail, e = HTTPException 500 detail).
Proof.
  unfold recommend_jobs. split.
  - by intros ->.
  - intros user e ->. destruct (mapM _ _) as [scored|e']; cbn; [done|].
    intros [= <-]. by eexists.
Qed.

(** C10. Every score in a recommendation result lies between 0 and 1. *)
Theorem recommendation_scores_in_unit_interval db uid top_k r :
  recommend_jobs db uid top_k = Ok r →
  Forall (λ rec, (0 <= Recommendation.score rec <= 1)%Q)
         (Recommendations.recommendations r).
Proof.
  intros (user & scored & _ & Hm & ->)%recommend_jobs_Ok_inv. cbn.
  apply mapM_Ok_Forall2 in Hm.
  assert (Forall (λ rec, (0 <= Recommendation.score rec <= 1)%Q) scored) as Hall.
  { clear -Hm. induction Hm as [|job rec jobs recs Hjob _ IH]; constructor; [|done].
    by eapply score_job_range. }
  destruct (slice_to_prefix top_k (sort_desc scored)) as [rest Hrest].
  rewrite <-(sort_desc_Permutation scored), Hrest in Hall.
  by apply Forall_app in Hall as [? _].
Qed.

(** The three theorems above at the sample database. *)

Lemma is_Ok_inv {E A} (m : result E A) : is_Ok m → ∃ a, m = Ok a.
Proof. destruct m; [eauto | done]. Qed.

Lemma str_list_field_lookup (d : gmap string pyval) (k : string)
    (l : list string) :
  d !! k = Some (str_list l) → str_list_field d k.
Proof. intros Hd v Hv. rewrite Hd in Hv. injection Hv as <-. eauto. Qed.

Lemma sample_db_jobs : get_documents sample_db "job" 1000 = [job_req; job_dba].
Proof. reflexivity. Qed.

Lemma sample_db_recommends : is_Ok (recommend_jobs sample_db "u1" 5).
Proof. exact I. Qed.

Lemma recommend_jobs_ranked_witness :
  ∃ r, recommend_jobs sample_db "u1" 1 = Ok r
       ∧ StronglySorted score_ge (Recommendations.recommendations r)
       ∧ length (Recommendations.recommendations r) ≤ 1.
Proof.
  destruct (recommend_jobs_ranked sample_db "u1" 1 (Doc 1 user_req))
    as [Hranked Htotal]; [reflexivity | lia |].
  destruct Htotal as [r Hr].
  - by apply (str_list_field_lookup _ _ ["python"]).
  - cbv zeta. rewrite sample_db_jobs.
    apply Forall_cons; split; [|apply Forall_cons; split; [|apply Forall_nil_2]].
    + by apply (str_list_field_lookup _ _ ["python"; "java"]).
    + by apply (str_list_field_lookup _ _ ["sql"; "python"]).
  - exists r. split; [exact Hr|].
    destruct (Hranked r Hr) as (Hsorted & Hlen & _). by split.
Defined.

Lemma recommend_jobs_unknown_user_witness :
  recommend_jobs sample_db "nobody" 5 = Raise (HTTPException 404 "User not found").
Proof.
  apply (recommend_jobs_unknown_user sample_db "nobody" 5). reflexivity.
Defined.

Lemma recommendation_scores_in_unit_interval_witness :
  ∃ r, recommend_jobs sample_db "u1" 5 = Ok r
       ∧ Forall (λ rec, (0 <= Recommendation.score rec <= 1)%Q)
                (Recommendations.recommendations r).
Proof.
  destruct (is_Ok_inv _ sample_db_recommends) as [r Hr].
  exists r. split; [exact Hr|].
  exact (recommendation_scores_in_unit_interval sample_db "u1" 5 r Hr).
Defined.

(** ** Success rate *)




(** ** The aggregation returns on well-formed records *)

Lemma event_channel_chosen e ch :
  event_channel e = Ok ch → ch = chosen_channel e.
Proof.
  unfold event_channel, chosen_channel, nested_channel_field, dict_get, py_or.
  destruct (e !! "properties") as [v|]; cbn.
  - destruct (truthy v) eqn:Hv.
    + destruct v; cbn; try done. by intros [= <-].
    + cbn. intros [= <-]. destruct v; try done.
      cbn in Hv. apply negb_false_iff, bool_decide_eq_true in Hv. by subst.
  - by intros [= <-].
Qed.

Lemma tally_total v counts : tallies v → is_Ok (tally v counts).
Proof.
  unfold tally. destruct v as [| | | | |[|x l]|d]; cbn; try done;
    try (by destruct (truthy _)).
  - by destruct b.
  - by destruct (negb _).
  - by destruct (negb _).
  - by destruct (negb _).
  - intros ->. done.
Qed.

Lemma event_channel_total e :
  match e !! "properties" with
  | None | Some (VDict _) => True
  | Some v => truthy v = false
  end →
  event_channel e = Ok (chosen_channel e).
Proof.
  intros Hp.
  destruct (event_channel e) as [ch|err] eqn:Hch;
    [by rewrite (event_channel_chosen _ _ Hch)|].
  exfalso. revert Hch. unfold event_channel, dict_get, py_or.
  destruct (e !! "properties") as [v|]; cbn; [|done].
  destruct v as [|b|n|x|s|l|d]; cbn in *; try (by rewrite Hp); try done.
  by destruct (negb _).
Qed.

Lemma event_step_total acc e : event_well_formed e → is_Ok (event_step acc e).
Proof.
  intros (Hp & Hch & Hpg). unfold event_step.
  rewrite (event_channel_total _ Hp). cbn.
  pose proof (tally_total _ acc.1 Hch) as H1.
  destruct (tally (chosen_channel e) acc.1); [|done]. cbn.
  pose proof (tally_total _ acc.2 Hpg) as H2.
  destruct (tally _ acc.2); [|done]. done.
Qed.

Lemma user_step_total dm u : user_well_formed u → is_Ok (user_step dm u).
Proof.
  intros (Hg & He & Hl). unfold user_step.
  pose proof (tally_total _ (gender dm) Hg) as H1.
  destruct (tally _ (gender dm)); [|done]. cbn.
  pose proof (tally_total _ (education dm) He) as H2.
  destruct (tally _ (education dm)); [|done]. cbn.
  pose proof (tally_total _ (location dm) Hl) as H3.
  destruct (tally _ (location dm)); [|done]. done.
Qed.

Lemma foldlM_total {E A B} (f : B → A → result E B) (P : A → Prop) l acc :
  (∀ acc x, P x → is_Ok (f acc x)) → Forall P l → is_Ok (foldlM f acc l).
Proof.
  intros Hf Hl. revert acc. induction Hl as [|x l Hx _ IH]; intros acc; cbn.
  - done.
  - specialize (Hf acc x Hx). destruct (f acc x); [|done]. cbn. apply IH.
Qed.

Lemma summarize_total evs usrs :
  Forall event_well_formed evs → Forall user_well_formed usrs →
  is_Ok (summarize evs usrs).
Proof.
  intros Hevs Husrs. unfold summarize.
  pose proof (foldlM_total event_step _ evs (∅, ∅)
                (λ acc e, event_step_total acc e) Hevs) as H1.
  destruct (foldlM event_step _ evs); [|done]. cbn.
  pose proof (foldlM_total user_step _ usrs initial_demographics
                (λ dm u, user_step_total dm u) Husrs) as H2.
  destruct (foldlM user_step _ usrs); [|done]. done.
Qed.

(** ** Age buckets *)

Lemma count_age_bucket_map v a b c d e :
  count_age v (bucket_map a b c d e) =
    match int_value v with
    | None => bucket_map a b c d e
    | Some n =>
        bucket_map (a + Nat.b2n (in_range None (Some 18%Z) n))
                   (b + Nat.b2n (in_range (Some 18%Z) (Some 25%Z) n))
                   (c + Nat.b2n (in_range (Some 25%Z) (Some 35%Z) n))
                   (d + Nat.b2n (in_range (Some 35%Z) (Some 45%Z) n))
                   (e + Nat.b2n (in_range (Some 45%Z) None n))
    end.
Proof.
  unfold count_age. destruct (int_value v) as [n|]; [|done].
  unfold in_range. cbn.
  destruct (Z.ltb_spec n 18), (Z.ltb_spec n 25), (Z.ltb_spec n 35), (Z.ltb_spec n 45),
    (Z.leb_spec 18 n), (Z.leb_spec 25 n), (Z.leb_spec 35 n), (Z.leb_spec 45 n);
    try lia; cbn; rewrite ?Nat.add_0_r; reflexivity.
Qed.

Lemma count_in_cons lo hi n ages :
  count_in lo hi (n :: ages) = Nat.b2n (in_range lo hi n) + count_in lo hi ages.
Proof. unfold count_in. cbn. by destruct (in_range lo hi n). Qed.

Lemma user_step_age_buckets dm u dm' :
  user_step dm u = Ok dm' →
  age_buckets dm' = count_age (dict_get u "age" VNone) (age_buckets dm).
Proof.
  unfold user_step.
  destruct (tally _ (gender dm)); [|done]. cbn.
  destruct (tally _ (education dm)); [|done]. cbn.
  destruct (tally _ (location dm)); [|done]. cbn.
  by intros [= <-].
Qed.

Lemma foldlM_user_step_age_buckets usrs dm dm' a b c d e :
  foldlM user_step dm usrs = Ok dm' →
  age_buckets dm = bucket_map a b c d e →
  age_buckets dm' =
    bucket_map (a + count_in None (Some 18%Z) (int_ages usrs))
               (b + count_in (Some 18%Z) (Some 25%Z) (int_ages usrs))
               (c + count_in (Some 25%Z) (Some 35%Z) (int_ages usrs))
               (d + count_in (Some 35%Z) (Some 45%Z) (int_ages usrs))
               (e + count_in (Some 45%Z) None (int_ages usrs)).
Proof.
  revert dm a b c d e.
  induction usrs as [|u usrs IH]; intros dm a b c d e; cbn [foldlM].
  - intros [= <-] ->. unfold count_in. cbn. by rewrite !Nat.add_0_r.
  - destruct (user_step dm u) as [dm1|] eqn:Hstep; cbn [mbind result_bind];
      [|done].
    intros Hfold Hdm. apply user_step_age_buckets in Hstep.
    rewrite Hdm, count_age_bucket_map in Hstep.
    change (int_ages (u :: usrs))
      with (match int_value (dict_get u "age" VNone) with
            | Some n => n :: int_ages usrs
            | None => int_ages usrs
            end).
    destruct (int_value _) as [n|].
    + rewrite (IH _ _ _ _ _ _ Hfold Hstep).
      rewrite !count_in_cons. by rewrite !Nat.add_assoc.
    + apply (IH _ _ _ _ _ _ Hfold Hstep).
Qed.

Lemma count_in_partition ages :
  count_in None (Some 18%Z) ages + count_in (Some 18%Z) (Some 25%Z) ages
  + count_in (Some 25%Z) (Some 35%Z) ages + count_in (Some 35%Z) (Some 45%Z) ages
  + count_in (Some 45%Z) None ages = length ages.
Proof.
  induction ages as [|n ages IH]; [done|].
  rewrite !count_in_cons. cbn [length]. rewrite <-IH.
  unfold in_range. cbn.
  destruct (Z.ltb_spec n 18), (Z.ltb_spec n 25), (Z.ltb_spec n 35), (Z.ltb_spec n 45),
    (Z.leb_spec 18 n), (Z.leb_spec 25 n), (Z.leb_spec 35 n), (Z.leb_spec 45 n);
    try lia; cbn; lia.
Qed.

Lemma summarize_Ok_inv evs usrs r :
  summarize evs usrs = Ok r →
  ∃ counts dm,
    foldlM event_step (∅, ∅) evs = Ok counts
    ∧ foldlM user_step initial_demographics usrs = Ok dm
    ∧ r = {| channels := counts.1; pages := counts.2; demographics := dm;
             samples := {| events := length evs; users := length usrs |} |}.
Proof.
  unfold summarize.
  destruct (foldlM event_step _ _) as [counts|]; [|done]. cbn.
  destruct (foldlM user_step _ _) as [dm|]; [|done]. cbn.
  intros [= <-]. eauto.
Qed.

(** C6. The aggregation returns on well-formed records, and in its result
    each of the five age buckets holds the number of scanned users whose
    [age] is an instance of [int] in its range: below 18, 18 to below 25, 25
    to below 35, 35 to below 45, and 45 or more.  The ranges are half-open
    and lower-inclusive, every such user falls in exactly one of them, and a
    user whose [age] is absent or no instance of [int] is in none.  An
    instance of [int] is what [isinstance(age, int)] accepts, a [bool]
    included. *)
Theorem age_buckets_half_open evs usrs :
  (Forall event_well_formed evs → Forall user_well_formed usrs →
   is_Ok (summarize evs usrs))
  ∧ ∀ r, summarize evs usrs = Ok r →
      let ages := int_ages usrs in
      let buckets := age_buckets (demographics r) in
      buckets !! "<18" = Some (count_in None (Some 18%Z) ages)
      ∧ buckets !! "18-24" = Some (count_in (Some 18%Z) (Some 25%Z) ages)
      ∧ buckets !! "25-34" = Some (count_in (Some 25%Z) (Some 35%Z) ages)
      ∧ buckets !! "35-44" = Some (count_in (Some 35%Z) (Some 45%Z) ages)
      ∧ buckets !! "45+" = Some (count_in (Some 45%Z) None ages)
      ∧ dom buckets = {["<18"; "18-24"; "25-34"; "35-44"; "45+"]}
      ∧ count_in None (Some 18%Z) ages + count_in (Some 18%Z) (Some 25%Z) ages
        + count_in (Some 25%Z) (Some 35%Z) ages
        + count_in (Some 35%Z) (Some 45%Z) ages
        + count_in (Some 45%Z) None ages = length ages.
Proof.
  split; [apply summarize_total|].
  intros r (counts & dm & _ & Hdm & ->)%summarize_Ok_inv ages buckets.
  subst buckets. cbn.
  rewrite (foldlM_user_step_age_buckets _ _ _ 0 0 0 0 0 Hdm eq_refl). cbn.
  fold ages. split_and!; try reflexivity.
  apply count_in_partition.
Qed.

Lemma age_buckets_half_open_witness :
  ∃ r, summarize [] age_users = Ok r
       ∧ age_buckets (demographics r) !! "<18" = Some 1
       ∧ age_buckets (demographics r) !! "18-24" = Some 2
       ∧ age_buckets (demographics r) !! "25-34" = Some 1
       ∧ age_buckets (demographics r) !! "35-44" = Some 0
       ∧ age_buckets (demographics r) !! "45+" = Some 1.
Proof.
  destruct (age_buckets_half_open [] age_users) as [Hruns Hbuckets].
  destruct (is_Ok_inv (summarize [] age_users)) as [r Hr].
  { apply Hruns; [apply Forall_nil_2|].
    repeat (apply Forall_cons_2; [by split_and!|]). apply Forall_nil_2. }
  exists r. split; [exact Hr|].
  destruct (Hbuckets r Hr) as (H1 & H2 & H3 & H4 & H5 & _).
  rewrite H1, H2, H3, H4, H5. repeat split; reflexivity.
Defined.

(** The boundary ages of the specification, one user at a time. *)
Example age_17_18_24_25_45 :
  (age_buckets ∘ demographics) <$> summarize [] [user_aged (VInt 17)]
    = Ok (bucket_map 1 0 0 0 0)
  ∧ (age_buckets ∘ demographics) <$> summarize [] [user_aged (VInt 18)]
    = Ok (bucket_map 0 1 0 0 0)
  ∧ (age_buckets ∘ demographics) <$> summarize [] [user_aged (VInt 24)]
    = Ok (bucket_map 0 1 0 0 0)
  ∧ (age_buckets ∘ demographics) <$> summarize [] [user_aged (VInt 25)]
    = Ok (bucket_map 0 0 1 0 0)
  ∧ (age_buckets ∘ demographics) <$> summarize [] [user_aged (VInt 45)]
    = Ok (bucket_map 0 0 0 0 1).
Proof. repeat split; reflexivity. Qed.

(** ** Channel frequency *)

Lemma tally_lookup v counts counts' k :
  tally v counts = Ok counts' →
  counts' !! k =
    if keyed_by k v then Some (default 0 (counts !! k) + 1) else counts !! k.
Proof.
  unfold tally, keyed_by. destruct (truthy v); cbn; [|by intros [= <-]].
  destruct (hash_key v) as [k'|]; cbn; [|done]. intros [= <-].
  unfold incr. case_bool_decide as Hk.
  - subst k'. by rewrite lookup_insert_eq.
  - by rewrite lookup_insert_ne.
Qed.

Lemma nonzero_succ n : Some (default 0 (nonzero n) + 1) = nonzero (n + 1).
Proof. destruct n; cbn; [done|]. by rewrite Nat.add_1_r. Qed.

Lemma event_step_Ok_inv acc e acc' :
  event_step acc e = Ok acc' →
  tally (chosen_channel e) acc.1 = Ok acc'.1
  ∧ tally (dict_get e "page" VNone) acc.2 = Ok acc'.2.
Proof.
  unfold event_step.
  destruct (event_channel e) as [ch|] eqn:Hch; cbn; [|done].
  apply event_channel_chosen in Hch. subst ch.
  destruct (tally _ acc.1) as [cc|]; cbn; [|done].
  destruct (tally _ acc.2) as [pc|]; cbn; [|done].
  by intros [= <-].
Qed.

Lemma foldlM_event_step_channels evs acc acc' (seen : hkey → nat) :
  foldlM event_step acc evs = Ok acc' →
  (∀ k, acc.1 !! k = nonzero (seen k)) →
  ∀ k, acc'.1 !! k =
         nonzero (seen k
                  + length (List.filter (λ e, keyed_by k (chosen_channel e)) evs)).
Proof.
  revert acc seen. induction evs as [|e evs IH]; intros acc seen; cbn.
  - intros [= <-] Hacc k. rewrite Nat.add_0_r. apply Hacc.
  - destruct (event_step acc e) as [acc1|] eqn:Hstep; cbn; [|done].
    apply event_step_Ok_inv in Hstep as [Hcc _].
    intros Hfold Hacc k.
    rewrite (IH _ (λ k, seen k + if keyed_by k (chosen_channel e) then 1 else 0)
               Hfold).
    + destruct (keyed_by k (chosen_channel e)); cbn; f_equal; lia.
    + intros k'. cbn. rewrite (tally_lookup _ _ _ k' Hcc), Hacc.
      destruct (keyed_by k' _); [apply nonzero_succ | by rewrite Nat.add_0_r].
Qed.

(** C7, amended. The aggregation returns on well-formed records, and in its
    result the channel of an event is the nested [properties.channel] value
    when that value is truthy, and the top-level [channel] value otherwise;
    each event whose channel is truthy adds one to the count of that
    channel, and an event whose channel is not truthy is counted under no
    key. *)
Theorem channel_counts_truthy_fallback evs usrs :
  (Forall event_well_formed evs → Forall user_well_formed usrs →
   is_Ok (summarize evs usrs))
  ∧ ∀ r, summarize evs usrs = Ok r →
      (∀ e, e ∈ evs → event_channel e = Ok (chosen_channel e))
      ∧ ∀ k, channels r !! k =
               nonzero (length (List.filter
                                  (λ e, keyed_by k (chosen_channel e)) evs)).
Proof.
  split; [apply summarize_total|].
  intros r (counts & dm & Hev & _ & ->)%summarize_Ok_inv. cbn. split.
  - clear -Hev. revert Hev. generalize (∅ : gmap hkey nat, ∅ : gmap hkey nat).
    induction evs as [|e evs IH]; intros acc; cbn; [by intros _ ? ?%elem_of_nil|].
    destruct (event_step acc e) as [acc1|] eqn:Hstep; cbn; [|done].
    intros Hfold e' [->|Hin]%elem_of_cons; [|by eapply IH].
    unfold event_step in Hstep.
    destruct (event_channel e) as [ch|] eqn:Hch; [|done].
    by rewrite (event_channel_chosen _ _ Hch).
  - intros k.
    by rewrite (foldlM_event_step_channels _ _ _ (λ _, 0) Hev (λ _, eq_refl)).
Qed.

Lemma channel_counts_truthy_fallback_witness :
  ∃ r, summarize [event_empty_nested] [] = Ok r
       ∧ channels r !! KStr "tv" = Some 1
       ∧ channels r !! KStr "" = None.
Proof.
  destruct (channel_counts_truthy_fallback [event_empty_nested] [])
    as [Hruns Hcounts].
  destruct (is_Ok_inv (summarize [event_empty_nested] [])) as [r Hr].
  { apply Hruns; [|apply Forall_nil_2].
    apply Forall_cons_2; [by split_and! | apply Forall_nil_2]. }
  exists r. split; [exact Hr|].
  destruct (Hcounts r Hr) as [_ Hcount].
  rewrite !Hcount. split; reflexivity.
Defined.

(** C7 as stated fails.  The event below has the nested field, holding the
    empty string, and the top-level field "tv": read by presence its channel
    is the empty string, yet the aggregation counts it under "tv".  An event
    stored by [track_event] with the same nested field and no top-level
    channel is examined and counted under no channel at all. *)
Lemma channel_fallback_counterexample :
  nested_channel_field event_empty_nested = Some (VStr "")
  ∧ claimed_channel event_empty_nested = Some (VStr "")
  ∧ event_channel event_empty_nested = Ok (VStr "tv")
  ∧ channels <$> summarize [event_empty_nested] [] = Ok {[ KStr "tv" := 1 ]}
  ∧ (let db := (track_event ∅ click_empty_channel).1 in
     claimed_channel <$> get_documents db "event" 50 = [Some (VStr "")]
     ∧ channels <$> analytics_overview db 50 = Ok ∅
     ∧ (events ∘ samples) <$> analytics_overview db 50 = Ok 1).
Proof. repeat split; reflexivity. Qed.

(** ** Profile upsert *)

(** The handlers that write keep the identifiers unique. *)

Lemma fresh_id_fresh (c : list document) : fresh_id c ∉ doc_id <$> c.
Proof.
  assert (∀ x, x ∈ doc_id <$> c → (x <= foldr N.max 0 (doc_id <$> c))%N) as Hmax.
  { induction (doc_id <$> c) as [|y ids IH]; intros x; cbn.
    - by intros ?%elem_of_nil.
    - intros [->|Hin]%elem_of_cons; [lia|]. specialize (IH x Hin). lia. }
  intros Hin. apply Hmax in Hin. unfold fresh_id in Hin. lia.
Qed.

Lemma unique_ids_empty : unique_ids ∅.
Proof. intros name. unfold collection. rewrite lookup_empty. constructor. Qed.

Lemma create_document_unique_ids db name data :
  unique_ids db → unique_ids (create_document db name data).
Proof.
  intros Hdb name'. unfold create_document, collection.
  destruct (decide (name = name')) as [<-|Hne].
  - rewrite lookup_insert_eq. cbn. rewrite fmap_app. cbn.
    apply NoDup_app. split; [apply Hdb|]. split; [|apply NoDup_singleton].
    intros x Hx ->%list_elem_of_singleton. by apply (fresh_id_fresh _ Hx).
  - rewrite lookup_insert_ne by done. apply Hdb.
Qed.

Lemma update_one_set_ids c id data :
  doc_id <$> update_one_set c id data = doc_id <$> c.
Proof.
  induction c as [|d c IH]; cbn; [done|].
  destruct (_ =? _)%N; cbn; [done | by rewrite IH].
Qed.

Lemma upsert_user_profile_unique_ids db p :
  unique_ids db → unique_ids (upsert_user_profile db p).1.
Proof.
  intros Hdb. unfold upsert_user_profile.
  destruct (find_one _ _) as [existing|]; cbn;
    [|by apply create_document_unique_ids].
  intros name. unfold collection.
  destruct (decide ("userprofile" = name)) as [<-|Hne].
  - rewrite lookup_insert_eq. cbn. rewrite update_one_set_ids. apply Hdb.
  - rewrite lookup_insert_ne by done. apply Hdb.
Qed.

Lemma track_event_unique_ids db p :
  unique_ids db → unique_ids (track_event db p).1.
Proof. apply create_document_unique_ids. Qed.

Lemma list_to_map_filter_snd (P : pyval → bool) (l : list (string * pyval))
    (k : string) :
  NoDup l.*1 →
  (list_to_map (List.filter (λ kv, P kv.2) l) : gmap string pyval) !! k
  = match (list_to_map l : gmap string pyval) !! k with
    | Some v => if P v then Some v else None
    | None => None
    end.
Proof.
  induction l as [|[k0 v0] l IH]; cbn; [by rewrite lookup_empty|].
  intros [Hk0 Hl]%NoDup_cons. specialize (IH Hl).
  destruct (decide (k = k0)) as [->|Hne].
  - rewrite lookup_insert_eq. destruct (P v0) eqn:HP; cbn.
    + by rewrite lookup_insert_eq.
    + rewrite IH. by rewrite (not_elem_of_list_to_map_1 _ _ Hk0).
  - rewrite lookup_insert_ne by done. destruct (P v0); cbn; [|done].
    by rewrite lookup_insert_ne.
Qed.

Lemma upsert_data_lookup (p : UpsertUserProfileRequest.t) (k : string) :
  (list_to_map (List.filter (λ kv, is_not_none kv.2)
                  (UpsertUserProfileRequest.model_dump p))
     : gmap string pyval) !! k = supplied p k.
Proof.
  apply list_to_map_filter_snd. cbn.
  by apply (bool_decide_unpack _).
Qed.

Lemma supplied_user_id (p : UpsertUserProfileRequest.t) :
  supplied p "user_id" = Some (VStr (UpsertUserProfileRequest.user_id p)).
Proof. reflexivity. Qed.

Lemma find_one_Some_split (c : list document) (uid : string) (d : document) :
  find_one c uid = Some d →
  ∃ pre post,
    c = pre ++ d :: post
    ∧ Forall (λ x, matches_user_id uid x = false) pre
    ∧ matches_user_id uid d = true.
Proof.
  unfold find_one. induction c as [|x c IH]; cbn; [done|].
  destruct (matches_user_id uid x) eqn:Hx.
  - intros [= ->]. exists [], c. by repeat split.
  - intros (pre & post & -> & Hpre & Hd)%IH.
    exists (x :: pre), post. repeat split; [|done]. by constructor.
Qed.

Lemma find_one_app_cons (pre post : list document) (uid : string) (d : document) :
  Forall (λ x, matches_user_id uid x = false) pre →
  matches_user_id uid d = true →
  find_one (pre ++ d :: post) uid = Some d.
Proof.
  unfold find_one. induction 1 as [|x pre Hx _ IH]; cbn; intros Hd.
  - by rewrite Hd.
  - rewrite Hx. by apply IH.
Qed.

Lemma update_one_set_app_cons (pre post : list document) (d : document)
    (data : gmap string pyval) :
  doc_id d ∉ doc_id <$> pre →
  update_one_set (pre ++ d :: post) (doc_id d) data
  = pre ++ Doc (doc_id d) (data ∪ doc_fields d) :: post.
Proof.
  induction pre as [|x pre IH]; cbn.
  - intros _. by rewrite N.eqb_refl.
  - intros [Hx Hpre]%not_elem_of_cons.
    destruct (N.eqb_spec (doc_id x) (doc_id d)) as [Heq|_]; [by destruct Hx|].
    by rewrite IH.
Qed.

Lemma supplied_fields (p : UpsertUserProfileRequest.t) :
  supplied p "user_id" = Some (VStr (UpsertUserProfileRequest.user_id p))
  ∧ supplied p "name" = VStr <$> UpsertUserProfileRequest.name p
  ∧ supplied p "email" = VStr <$> UpsertUserProfileRequest.email p
  ∧ supplied p "age" = VInt <$> UpsertUserProfileRequest.age p
  ∧ supplied p "gender" = VStr <$> UpsertUserProfileRequest.gender p
  ∧ supplied p "location" = VStr <$> UpsertUserProfileRequest.location p
  ∧ supplied p "education" = VStr <$> UpsertUserProfileRequest.education p
  ∧ supplied p "experience_years"
    = VFloat <$> UpsertUserProfileRequest.experience_years p
  ∧ supplied p "skills" = str_list <$> UpsertUserProfileRequest.skills p
  ∧ supplied p "channel" = VStr <$> UpsertUserProfileRequest.channel p.
Proof.
  destruct p as [uid name email age gender location education exp skills channel].
  cbn [UpsertUserProfileRequest.user_id UpsertUserProfileRequest.name
       UpsertUserProfileRequest.email UpsertUserProfileRequest.age
       UpsertUserProfileRequest.gender UpsertUserProfileRequest.location
       UpsertUserProfileRequest.education
       UpsertUserProfileRequest.experience_years
       UpsertUserProfileRequest.skills UpsertUserProfileRequest.channel].
  split_and!; [reflexivity | by destruct name | by destruct email
   | by destruct age | by destruct gender | by destruct location
   | by destruct education | by destruct exp | by destruct skills
   | by destruct channel].
Qed.

(** C8. An upsert on a [user_id] that has a profile replaces that profile,
    in place, by its merge with the non-null fields of the request: a field
    the request supplies takes the supplied value, every other field keeps
    the stored one; the other profiles and collections do not change. *)
Theorem upsert_merges_non_null (db : gmap string (list document))
    (p : UpsertUserProfileRequest.t) (existing : document) :
  let uid := UpsertUserProfileRequest.user_id p in
  let users := collection db "userprofile" in
  let db' := (upsert_user_profile db p).1 in
  NoDup (doc_id <$> users) →
  find_one users uid = Some existing →
  ∃ pre post merged,
    users = pre ++ existing :: post
    ∧ collection db' "userprofile" = pre ++ merged :: post
    ∧ find_one (collection db' "userprofile") uid = Some merged
    ∧ doc_id merged = doc_id existing
    ∧ (∀ k, doc_fields merged !! k =
              match supplied p k with
              | Some v => Some v
              | None => doc_fields existing !! k
              end)
    ∧ (∀ name, name ≠ "userprofile" → db' !! name = db !! name)
    ∧ (upsert_user_profile db p).2 = Ok {| status := "ok" |}.
Proof.
  intros uid users db' Hids Hfind.
  destruct (find_one_Some_split _ _ _ Hfind) as (pre & post & Husers & Hpre & Hm).
  set (data := list_to_map (List.filter (λ kv, is_not_none kv.2)
                              (UpsertUserProfileRequest.model_dump p))
               : gmap string pyval).
  set (merged := Doc (doc_id existing) (data ∪ doc_fields existing)).
  assert (∀ k, doc_fields merged !! k =
               match supplied p k with
               | Some v => Some v
               | None => doc_fields existing !! k
               end) as Hmerged.
  { intros k. change (doc_fields merged) with (data ∪ doc_fields existing).
    rewrite lookup_union. unfold data. rewrite upsert_data_lookup.
    destruct (supplied p k), (doc_fields existing !! k); done. }
  assert (db' = <["userprofile" := pre ++ merged :: post]> db) as Hdb'.
  { subst db'. unfold upsert_user_profile. fold users uid. rewrite Hfind. cbn.
    f_equal. rewrite Husers. apply update_one_set_app_cons.
    rewrite Husers, fmap_app, fmap_cons in Hids.
    apply NoDup_app in Hids as (_ & Hdisj & _).
    intros Hin. apply (Hdisj _ Hin). by left. }
  assert (collection db' "userprofile" = pre ++ merged :: post) as Hcoll.
  { rewrite Hdb'. unfold collection. by rewrite lookup_insert_eq. }
  exists pre, post, merged. split_and!; try done.
  - rewrite Hcoll. apply find_one_app_cons; [done|].
    unfold matches_user_id. rewrite Hmerged, supplied_user_id.
    apply String.eqb_refl.
  - intros name Hname. rewrite Hdb'. by rewrite lookup_insert_ne.
  - unfold upsert_user_profile. fold users uid. by rewrite Hfind.
Qed.

Lemma upsert_merges_non_null_witness :
  ∃ merged,
    find_one (collection (upsert_user_profile db_age_30 profile_name_A).1
                "userprofile") "u1" = Some merged
    ∧ doc_fields merged !! "age" = Some (VInt 30)
    ∧ doc_fields merged !! "name" = Some (VStr "A").
Proof.
  destruct (upsert_merges_non_null db_age_30 profile_name_A
              (Doc 1 {[ "user_id" := VStr "u1"; "age" := VInt 30 ]}))
    as (pre & post & merged & _ & _ & Hfind & _ & Hfields & _).
  - by apply (bool_decide_unpack _).
  - reflexivity.
  - exists merged. split; [exact Hfind|]. rewrite !Hfields. split; reflexivity.
Defined.

Example upsert_age_then_name :
  (λ d, (doc_fields d !! "age", doc_fields d !! "name"))
    <$> collection (upsert_user_profile db_age_30 profile_name_A).1 "userprofile"
  = [(Some (VInt 30), Some (VStr "A"))].
Proof. reflexivity. Qed.

(** ** Frequency tables, by the records scanned *)

Lemma foldlM_tally_lookup {A B} (f : B → A → result pyerr B)
    (table : B → gmap hkey nat) (val : A → pyval) (l : list A) (acc acc' : B)
    (seen : hkey → nat) :
  (∀ acc x acc', f acc x = Ok acc' →
                 tally (val x) (table acc) = Ok (table acc')) →
  foldlM f acc l = Ok acc' →
  (∀ k, table acc !! k = nonzero (seen k)) →
  ∀ k, table acc' !! k = nonzero (seen k + count_keyed val k l).
Proof.
  intros Hf. revert acc seen.
  induction l as [|x l IH]; intros acc seen; cbn [foldlM].
  - intros [= <-] Hacc k. unfold count_keyed. cbn. rewrite Nat.add_0_r. apply Hacc.
  - destruct (f acc x) as [acc1|] eqn:Hstep; cbn [mbind result_bind]; [|done].
    apply Hf in Hstep. intros Hfold Hacc k.
    rewrite (IH _ (λ k, seen k + if keyed_by k (val x) then 1 else 0) Hfold).
    + unfold count_keyed. cbn. destruct (keyed_by k (val x)); cbn; f_equal; lia.
    + intros k'. cbn. rewrite (tally_lookup _ _ _ k' Hstep), Hacc.
      destruct (keyed_by k' _); [apply nonzero_succ | by rewrite Nat.add_0_r].
Qed.

Lemma user_step_Ok_inv dm u dm' :
  user_step dm u = Ok dm' →
  tally (dict_get u "gender" VNone) (gender dm) = Ok (gender dm')
  ∧ tally (dict_get u "education" VNone) (education dm) = Ok (education dm')
  ∧ tally (dict_get u "location" VNone) (location dm) = Ok (location dm').
Proof.
  unfold user_step.
  destruct (tally _ (gender dm)); cbn; [|done].
  destruct (tally _ (education dm)); cbn; [|done].
  destruct (tally _ (location dm)); cbn; [|done].
  by intros [= <-].
Qed.

Lemma tally_Ok_tallies v counts : is_Ok (tally v counts) → tallies v.
Proof.
  unfold tally. destruct v as [| | | | |[|x l]|d]; cbn; try done.
  destruct (decide (d = ∅)) as [->|Hne]; [done|].
  by rewrite (bool_decide_eq_false_2 _ Hne).
Qed.

Lemma event_step_Ok_well_formed acc e :
  is_Ok (event_step acc e) → event_well_formed e.
Proof.
  destruct (event_step acc e) as [acc'|] eqn:Hstep; [intros _|done].
  pose proof Hstep as [Hch Hpg]%event_step_Ok_inv.
  split_and!.
  - unfold event_step, event_channel, dict_get, py_or in Hstep.
    destruct (e !! "properties") as [v|]; [|done].
    destruct (truthy v) eqn:Ht; [|by destruct v].
    destruct v as [|b|n|x|s|[|y l]|d]; cbn in Ht, Hstep; try done;
      rewrite Ht in Hstep; done.
  - apply (tally_Ok_tallies _ acc.1). by rewrite Hch.
  - apply (tally_Ok_tallies _ acc.2). by rewrite Hpg.
Qed.

Lemma user_step_Ok_well_formed dm u :
  is_Ok (user_step dm u) → user_well_formed u.
Proof.
  destruct (user_step dm u) as [dm'|] eqn:Hstep; [intros _|done].
  apply user_step_Ok_inv in Hstep as (Hg & He & Hl).
  split_and!.
  - apply (tally_Ok_tallies _ (gender dm)). by rewrite Hg.
  - apply (tally_Ok_tallies _ (education dm)). by rewrite He.
  - apply (tally_Ok_tallies _ (location dm)). by rewrite Hl.
Qed.

Lemma foldlM_Ok_Forall {E A B} (f : B → A → result E B) (P : A → Prop) l acc :
  (∀ acc x, is_Ok (f acc x) → P x) → is_Ok (foldlM f acc l) → Forall P l.
Proof.
  intros Hf. revert acc. induction l as [|x l IH]; intros acc; cbn [foldlM].
  - constructor.
  - destruct (f acc x) as [acc1|] eqn:Hstep; cbn [mbind result_bind]; [|done].
    intros Hl. constructor; [|by eapply IH].
    apply (Hf acc). by rewrite Hstep.
Qed.

Lemma summarize_Ok_iff evs usrs :
  is_Ok (summarize evs usrs)
  ↔ Forall event_well_formed evs ∧ Forall user_well_formed usrs.
Proof.
  split; [|intros [??]; by apply summarize_total].
  unfold summarize.
  destruct (foldlM event_step _ evs) as [counts|] eqn:Hev;
    cbn [mbind result_bind]; [|done].
  destruct (foldlM user_step _ usrs) as [dm|] eqn:Hdm;
    cbn [mbind result_bind]; [|done].
  intros _. split.
  - apply (foldlM_Ok_Forall event_step _ evs (∅, ∅) event_step_Ok_well_formed).
    by rewrite Hev.
  - apply (foldlM_Ok_Forall user_step _ usrs initial_demographics
             user_step_Ok_well_formed).
    by rewrite Hdm.
Qed.

(** X10. [analytics_overview] returns exactly when every
    scanned event and user is well formed (a "properties" value with [get],
    hashable keys to count), and when it fails, it is with status 500. *)
Theorem analytics_overview_fails_iff_malformed db limit :
  let evs := get_documents db "event" limit in
  let usrs := get_documents db "userprofile" limit in
  (is_Ok (analytics_overview db limit)
   ↔ Forall event_well_formed evs ∧ Forall user_well_formed usrs)
  ∧ ∀ e, analytics_overview db limit = Raise e →
         ∃ detail, e = HTTPException 500 detail.
Proof.
  intros evs usrs. unfold analytics_overview. fold evs usrs. split.
  - rewrite <-summarize_Ok_iff. by destruct (summarize evs usrs).
  - intros e. destruct (summarize evs usrs); cbn; [done|].
    intros [= <-]. by eexists.
Qed.

Lemma filter_length_Permutation {A} (f : A → bool) (l l' : list A) :
  l ≡ₚ l' → length (List.filter f l) = length (List.filter f l').
Proof.
  induction 1 as [|x l l' _ IH|x y l|l1 l2 l3 _ IH1 _ IH2]; cbn.
  - done.
  - destruct (f x); cbn; by rewrite IH.
  - by destruct (f x), (f y).
  - by rewrite IH1.
Qed.

Lemma int_ages_Permutation usrs usrs' :
  usrs ≡ₚ usrs' → int_ages usrs ≡ₚ int_ages usrs'.
Proof. intros Hp. unfold int_ages. by rewrite Hp. Qed.

(** Every table of a result, by the records that were scanned. *)
Lemma summarize_tables evs usrs r :
  summarize evs usrs = Ok r →
  (∀ k, channels r !! k = nonzero (count_keyed chosen_channel k evs))
  ∧ (∀ k, pages r !! k
          = nonzero (count_keyed (λ e, dict_get e "page" VNone) k evs))
  ∧ (∀ k, gender (demographics r) !! k
          = nonzero (count_keyed (λ u, dict_get u "gender" VNone) k usrs))
  ∧ (∀ k, education (demographics r) !! k
          = nonzero (count_keyed (λ u, dict_get u "education" VNone) k usrs))
  ∧ (∀ k, location (demographics r) !! k
          = nonzero (count_keyed (λ u, dict_get u "location" VNone) k usrs))
  ∧ age_buckets (demographics r)
    = bucket_map (count_in None (Some 18%Z) (int_ages usrs))
                 (count_in (Some 18%Z) (Some 25%Z) (int_ages usrs))
                 (count_in (Some 25%Z) (Some 35%Z) (int_ages usrs))
                 (count_in (Some 35%Z) (Some 45%Z) (int_ages usrs))
                 (count_in (Some 45%Z) None (int_ages usrs))
  ∧ samples r = {| events := length evs; users := length usrs |}.
Proof.
  intros (counts & dm & Hev & Hdm & ->)%summarize_Ok_inv. cbn.
  split_and!; try done.
  - intros k.
    apply (foldlM_tally_lookup event_step fst _ evs (∅, ∅) counts (λ _, 0));
      [|done|done].
    by intros acc e acc' [? _]%event_step_Ok_inv.
  - intros k.
    apply (foldlM_tally_lookup event_step snd _ evs (∅, ∅) counts (λ _, 0));
      [|done|done].
    by intros acc e acc' [_ ?]%event_step_Ok_inv.
  - intros k.
    apply (foldlM_tally_lookup user_step gender _ usrs initial_demographics dm
             (λ _, 0)); [|done|done].
    by intros acc u acc' (? & _)%user_step_Ok_inv.
  - intros k.
    apply (foldlM_tally_lookup user_step education _ usrs initial_demographics
             dm (λ _, 0)); [|done|done].
    by intros acc u acc' (_ & ? & _)%user_step_Ok_inv.
  - intros k.
    apply (foldlM_tally_lookup user_step location _ usrs initial_demographics
             dm (λ _, 0)); [|done|done].
    by intros acc u acc' (_ & _ & ?)%user_step_Ok_inv.
  - apply (foldlM_user_step_age_buckets _ _ _ 0 0 0 0 0 Hdm eq_refl).
Qed.

(** X7. The page table maps a key to the number of scanned
    events whose "page" is truthy and equal to it; a page no event has
    does not occur in the table, nor do empty or null pages. *)
Theorem page_counts_truthy evs usrs r :
  summarize evs usrs = Ok r →
  ∀ k, pages r !! k = nonzero (count_keyed (λ e, dict_get e "page" VNone) k evs).
Proof. by intros (_ & ? & _)%summarize_tables. Qed.

(** X8. The gender, education and location tables map a
    key to the number of scanned users whose field of that name is truthy
    and equal to it; a value no user has does not occur. *)
Theorem demographic_counts_truthy evs usrs r :
  summarize evs usrs = Ok r →
  ∀ k,
    gender (demographics r) !! k
    = nonzero (count_keyed (λ u, dict_get u "gender" VNone) k usrs)
    ∧ education (demographics r) !! k
      = nonzero (count_keyed (λ u, dict_get u "education" VNone) k usrs)
    ∧ location (demographics r) !! k
      = nonzero (count_keyed (λ u, dict_get u "location" VNone) k usrs).
Proof. intros (_ & _ & ? & ? & ? & _)%summarize_tables k. by split_and!. Qed.

Lemma count_keyed_Permutation {A} (val : A → pyval) k (l l' : list A) :
  l ≡ₚ l' → count_keyed val k l = count_keyed val k l'.
Proof. apply filter_length_Permutation. Qed.

Lemma count_in_Permutation lo hi (l l' : list Z) :
  l ≡ₚ l' → count_in lo hi l = count_in lo hi l'.
Proof. apply filter_length_Permutation. Qed.

(** X11. The aggregation does not depend on the order of the
    scan: permuting the events and the users gives the same result. *)
Theorem summarize_scan_order evs evs' usrs usrs' r :
  evs ≡ₚ evs' → usrs ≡ₚ usrs' →
  summarize evs usrs = Ok r → summarize evs' usrs' = Ok r.
Proof.
  intros Hevs Husrs Hr.
  assert (is_Ok (summarize evs' usrs')) as Hok.
  { apply summarize_Ok_iff. rewrite <-Hevs, <-Husrs. apply summarize_Ok_iff.
    by rewrite Hr. }
  destruct (summarize evs' usrs') as [r'|] eqn:Hr'; [|done]. f_equal.
  apply summarize_tables in Hr as (Hc & Hp & Hg & He & Hl & Ha & Hs).
  apply summarize_tables in Hr' as (Hc' & Hp' & Hg' & He' & Hl' & Ha' & Hs').
  destruct r as [c p [g e l a] s], r' as [c' p' [g' e' l' a'] s']. cbn in *.
  f_equal; [| |f_equal|].
  - apply map_eq. intros k. by rewrite Hc, Hc', (count_keyed_Permutation _ _ _ _ Hevs).
  - apply map_eq. intros k. by rewrite Hp, Hp', (count_keyed_Permutation _ _ _ _ Hevs).
  - apply map_eq. intros k. by rewrite Hg, Hg', (count_keyed_Permutation _ _ _ _ Husrs).
  - apply map_eq. intros k. by rewrite He, He', (count_keyed_Permutation _ _ _ _ Husrs).
  - apply map_eq. intros k. by rewrite Hl, Hl', (count_keyed_Permutation _ _ _ _ Husrs).
  - rewrite Ha, Ha'.
    by rewrite !(count_in_Permutation _ _ _ _ (int_ages_Permutation _ _ Husrs)).
  - rewrite Hs, Hs'. by rewrite Hevs, Husrs.
Qed.

(** ** The similarity of arbitrary values *)

Lemma ratio_eq_1 (i u : nat) :
  u ≠ 0 →
  (inject_Z (Z.of_nat i) / inject_Z (Z.of_nat u) == 1)%Q ↔ i = u.
Proof.
  intros Hu.
  assert (¬ (inject_Z (Z.of_nat u) == 0)%Q) as Hnz.
  { unfold Qeq. cbn. lia. }
  split.
  - intros Heq. apply (Qmult_inj_r _ _ (inject_Z (Z.of_nat u)) Hnz) in Heq.
    rewrite Qmult_1_l in Heq. unfold Qdiv in Heq.
    rewrite <-Qmult_assoc, (Qmult_comm (/ _)), Qmult_inv_r, Qmult_1_r in Heq by done.
    apply (proj1 (inject_Z_injective _ _)) in Heq. lia.
  - intros ->. by apply Qmult_inv_r.
Qed.

Lemma ratio_eq_0 (i u : nat) :
  u ≠ 0 →
  (inject_Z (Z.of_nat i) / inject_Z (Z.of_nat u) == 0)%Q ↔ i = 0.
Proof.
  intros Hu.
  assert (¬ (inject_Z (Z.of_nat u) == 0)%Q) as Hnz.
  { unfold Qeq. cbn. lia. }
  split.
  - intros Heq. apply (Qmult_inj_r _ _ (inject_Z (Z.of_nat u)) Hnz) in Heq.
    rewrite Qmult_0_l in Heq. unfold Qdiv in Heq.
    rewrite <-Qmult_assoc, (Qmult_comm (/ _)), Qmult_inv_r, Qmult_1_r in Heq by done.
    change 0%Q with (inject_Z 0) in Heq.
    apply (proj1 (inject_Z_injective _ _)) in Heq. lia.
  - intros ->. unfold Qdiv. by rewrite Qmult_0_l.
Qed.

(** X12. On lists of strings [jaccard] is 1 exactly when the two
    lists have the same elements and are not empty, and 0 exactly when
    they share no element. *)
Theorem jaccard_extremes (a b : list string) :
  let A : gset string := list_to_set a in
  let B : gset string := list_to_set b in
  ∃ j, jaccard (str_list a) (str_list b) = Ok j
       ∧ ((j == 1)%Q ↔ A = B ∧ A ≠ ∅)
       ∧ ((j == 0)%Q ↔ A ∩ B = ∅).
Proof.
  intros A B. rewrite jaccard_str_lists. fold A B. eexists. split; [done|].
  case_bool_decide as Hempty.
  - destruct Hempty as [HA HB]. rewrite HA, HB. split.
    + split; [done | by intros [_ ?]].
    + split; [intros _; apply (left_id_L ∅ (∪)) || set_solver | done].
  - assert (size (A ∪ B) ≠ 0) as Hu.
    { intros Hz. apply size_empty_iff, leibniz_equiv in Hz.
      apply empty_union_L in Hz. by destruct Hempty. }
    rewrite ratio_eq_1, ratio_eq_0 by done. split.
    + split.
      * intros Hsz.
        assert (A ∩ B = A ∪ B) as Heq.
        { apply set_subseteq_size_eq; [|lia]. intros x.
          rewrite elem_of_intersection, elem_of_union. tauto. }
        assert (A = B) as HAB.
        { apply set_eq. intros x.
          assert (x ∈ A ∩ B ↔ x ∈ A ∪ B) as Hx by (by rewrite Heq).
          rewrite elem_of_intersection, elem_of_union in Hx. tauto. }
        split; [done|]. intros HA. apply Hempty. split; [done | by rewrite <-HAB].
      * intros [-> _]. f_equal. apply set_eq. intros x.
        rewrite elem_of_intersection, elem_of_union. tauto.
    + rewrite <-(leibniz_equiv_iff (A ∩ B)). apply size_empty_iff.
Qed.

Lemma hash_key_Ok_iff v : is_Ok (hash_key v) ↔ scalar v.
Proof. by destruct v. Qed.

Lemma mapM_hash_key_Ok_iff l : is_Ok (mapM hash_key l) ↔ Forall scalar l.
Proof.
  induction l as [|v l IH]; cbn; [by split; [constructor|]|].
  rewrite Forall_cons, <-IH, <-hash_key_Ok_iff.
  destruct (hash_key v); cbn; [|tauto].
  destruct (mapM hash_key l); cbn; tauto.
Qed.

Lemma py_set_or_Ok_iff v : is_Ok (py_set (py_or v (VList []))) ↔ set_like v.
Proof.
  unfold py_or. destruct v as [|b|n|x|s|l|d]; cbn.
  - done.
  - destruct b; cbn; split; done.
  - destruct (Z.eqb_spec n 0); cbn; split; done.
  - destruct (Qeq_bool x 0) eqn:Hx; cbn.
    + by apply Qeq_bool_iff in Hx.
    + split; [done|]. intros Hx'%Qeq_bool_iff. congruence.
  - by destruct (negb _).
  - destruct l as [|v l]; [by split; [constructor|]|].
    rewrite <-mapM_hash_key_Ok_iff.
    change (py_set (VList (v :: l))) with
      (ks ← mapM hash_key (v :: l); mret (list_to_set ks : gset hkey)).
    by destruct (mapM hash_key (v :: l)).
  - by destruct (negb _).
Qed.

Lemma py_set_TypeError v e : py_set v = Raise e → ∃ msg, e = TypeError msg.
Proof.
  destruct v as [| | | | |l|]; cbn; try (intros [= <-]; by eexists); try done.
  assert (∀ e, mapM hash_key l = Raise e → ∃ msg, e = TypeError msg) as Hm.
  { clear. induction l as [|v l IH]; cbn; [done|]. intros e.
    destruct (hash_key v) eqn:Hv; cbn.
    - destruct (mapM hash_key l); cbn; [done|]. intros [= <-]. by apply IH.
    - intros [= <-]. destruct v; cbn in Hv; try done; injection Hv as <-;
        by eexists. }
  destruct (mapM hash_key l); cbn; [done|]. intros [= <-]. by apply Hm.
Qed.

Lemma jaccard_Ok_iff (a b : pyval) :
  is_Ok (jaccard a b) ↔ set_like a ∧ set_like b.
Proof.
  rewrite <-!py_set_or_Ok_iff. unfold jaccard.
  destruct (py_set (py_or a _)) as [sa|]; cbn; [|tauto].
  destruct (py_set (py_or b _)) as [sb|]; cbn; [|tauto].
  by destruct (_ && _).
Qed.

(** X13. On arbitrary values [jaccard] returns exactly when each
    argument is falsy, a string, a dict or a list of hashable items;
    otherwise it raises a [TypeError].  What it returns is symmetric in the
    arguments and lies between 0 and 1. *)
Theorem jaccard_any_values (a b : pyval) :
  (is_Ok (jaccard a b) ↔ set_like a ∧ set_like b)
  ∧ (∀ e, jaccard a b = Raise e → ∃ msg, e = TypeError msg)
  ∧ (∀ j, jaccard a b = Ok j → jaccard b a = Ok j ∧ (0 <= j <= 1)%Q).
Proof.
  split_and!.
  - apply jaccard_Ok_iff.
  - intros e. unfold jaccard.
    destruct (py_set (py_or a _)) as [sa|ea] eqn:Ha; cbn.
    + destruct (py_set (py_or b _)) as [sb|eb] eqn:Hb; cbn.
      * by destruct (_ && _).
      * intros [= <-]. by eapply py_set_TypeError.
    + intros [= <-]. by eapply py_set_TypeError.
  - intros j Hj. split; [|by eapply jaccard_range].
    destruct (py_set (py_or a (VList []))) as [sa|] eqn:Ha;
      [|by unfold jaccard in Hj; rewrite Ha in Hj].
    destruct (py_set (py_or b (VList []))) as [sb|] eqn:Hb;
      [|by unfold jaccard in Hj; rewrite Ha, Hb in Hj].
    rewrite (jaccard_of_sets _ _ _ _ Ha Hb) in Hj.
    rewrite (jaccard_of_sets _ _ _ _ Hb Ha), <-Hj.
    replace (sb ∩ sa) with (sa ∩ sb) by apply (comm_L (∩)).
    replace (sb ∪ sa) with (sa ∪ sb) by apply (comm_L (∪)).
    replace (bool_decide (sb = ∅ ∧ sa = ∅)) with (bool_decide (sa = ∅ ∧ sb = ∅))
      by (apply bool_decide_ext; tauto).
    done.
Qed.

(** ** Selection and stability of the ranking *)

Lemma with_score_insert_desc q x l :
  with_score q (insert_desc x l) = with_score q (x :: l).
Proof.
  induction l as [|y l IH]; [done|]. cbn [insert_desc].
  destruct (Qle_bool _ _) eqn:Hle; [done|].
  change (with_score q (y :: insert_desc x l))
    with (if Qeq_bool (Recommendation.score y) q
          then y :: with_score q (insert_desc x l)
          else with_score q (insert_desc x l)).
  rewrite IH. unfold with_score. cbn.
  destruct (Qeq_bool (Recommendation.score y) q) eqn:Hy; [|done].
  destruct (Qeq_bool (Recommendation.score x) q) eqn:Hx; [|done].
  apply Qeq_bool_iff in Hx, Hy.
  assert (Qle_bool (Recommendation.score y) (Recommendation.score x) = true)
    as Hle'; [|congruence].
  apply Qle_bool_iff. rewrite Hx, Hy. apply Qle_refl.
Qed.

Lemma with_score_sort_desc q l : with_score q (sort_desc l) = with_score q l.
Proof.
  induction l as [|x l IH]; [done|]. cbn [sort_desc foldr].
  change (foldr insert_desc [] l) with (sort_desc l).
  rewrite with_score_insert_desc. unfold with_score in *. cbn.
  by rewrite IH.
Qed.

Lemma with_score_prefix q l1 l2 :
  l1 `prefix_of` l2 → with_score q l1 `prefix_of` with_score q l2.
Proof.
  intros [rest ->]. unfold with_score. rewrite List.filter_app.
  by apply prefix_app_r.
Qed.

(** X14. The ranking is stable: among the returned
    recommendations, those of one score appear in the order of the scan,
    as a prefix of the scanned jobs of that score. *)
Theorem ranking_is_stable db uid top_k r :
  recommend_jobs db uid top_k = Ok r →
  ∃ user scored,
    find_one (collection db "userprofile") uid = Some user
    ∧ Forall2 (λ job rec, score_job (doc_fields user) job = Ok rec)
              (get_documents db "job" 1000) scored
    ∧ ∀ q, with_score q (Recommendations.recommendations r)
           `prefix_of` with_score q scored.
Proof.
  intros (user & scored & Hfind & Hm & ->)%recommend_jobs_Ok_inv. cbn.
  exists user, scored. split; [done|]. split; [by apply mapM_Ok_Forall2|].
  intros q. rewrite <-(with_score_sort_desc q scored).
  apply with_score_prefix, slice_to_prefix.
Qed.

(** X15. The recommendations are a selection of the scored jobs:
    with the jobs left out they are a permutation of the scored jobs, every
    returned score is at least every score left out, and their number is
    [min top_k n] for [top_k >= 0] and [n - |top_k|] (cut at 0) for a
    negative [top_k], the slice [scored[:top_k]] dropping from the end. *)
Theorem top_k_selection db uid top_k r :
  recommend_jobs db uid top_k = Ok r →
  let recs := Recommendations.recommendations r in
  let n := length (get_documents db "job" 1000) in
  ∃ user scored rest,
    find_one (collection db "userprofile") uid = Some user
    ∧ Forall2 (λ job rec, score_job (doc_fields user) job = Ok rec)
              (get_documents db "job" 1000) scored
    ∧ recs ++ rest ≡ₚ scored
    ∧ (∀ x y, x ∈ recs → y ∈ rest → score_ge x y)
    ∧ length recs = if (0 <=? top_k)%Z then Z.to_nat top_k `min` n
                    else n - Z.to_nat (- top_k).
Proof.
  intros (user & scored & Hfind & Hm & ->)%recommend_jobs_Ok_inv recs n.
  cbn in recs. apply mapM_Ok_Forall2 in Hm.
  destruct (slice_to_prefix top_k (sort_desc scored)) as [rest Hrest].
  exists user, scored, rest. split; [done|]. split; [done|].
  fold recs in Hrest. split; [by rewrite <-Hrest, sort_desc_Permutation|].
  split.
  - pose proof (sort_desc_sorted scored) as Hs. rewrite Hrest in Hs.
    intros x y Hx Hy. by eapply StronglySorted_app_1_elem_of.
  - assert (length (sort_desc scored) = n) as Hlen.
    { rewrite sort_desc_Permutation. subst n. symmetry.
      by eapply Forall2_length. }
    subst recs. unfold slice_to.
    destruct (0 <=? top_k)%Z; rewrite length_take, Hlen; lia.
Qed.

Lemma round_half_even_mono (x y : Q) :
  (x <= y)%Q → (round_half_even x <= round_half_even y)%Z.
Proof.
  intros Hxy. pose proof (Qfloor_resp_le _ _ Hxy) as Hf.
  pose proof (Qfloor_le x) as Hx. pose proof (Qfloor_le y) as Hy.
  unfold round_half_even.
  destruct (Z.eq_dec (Qfloor x) (Qfloor y)) as [Heq|Hne].
  - rewrite <-Heq in Hy |- *.
    destruct (Qcompare_spec (x - inject_Z (Qfloor x)) (1 # 2)),
             (Qcompare_spec (y - inject_Z (Qfloor x)) (1 # 2));
      try lia; try lra; destruct (Z.even _); lia.
  - destruct (x - inject_Z (Qfloor x) ?= 1 # 2)%Q,
             (y - inject_Z (Qfloor y) ?= 1 # 2)%Q;
      repeat destruct (Z.even _); lia.
Qed.

Lemma round3_mono (x y : Q) : (x <= y)%Q → (round3 x <= round3 y)%Q.
Proof.
  intros Hxy. unfold round3, Qdiv. change (/ 1000)%Q with (1 # 1000)%Q.
  assert (x * 1000 <= y * 1000)%Q as H by lra.
  apply round_half_even_mono in H. rewrite Zle_Qle in H. lra.
Qed.

Lemma round3_proper (x y : Q) : (x == y)%Q → (round3 x == round3 y)%Q.
Proof.
  intros Hxy. apply Qle_antisym; apply round3_mono; rewrite Hxy; apply Qle_refl.
Qed.


Lemma jaccard_empty_side (a b : pyval) (j : Q) :
  truthy a = false ∨ truthy b = false → jaccard a b = Ok j → (j == 0)%Q.
Proof.
  intros Hab Hj.
  destruct (py_set (py_or a (VList []))) as [sa|] eqn:Ha;
    [|by unfold jaccard in Hj; rewrite Ha in Hj].
  destruct (py_set (py_or b (VList []))) as [sb|] eqn:Hb;
    [|by unfold jaccard in Hj; rewrite Ha, Hb in Hj].
  rewrite (jaccard_of_sets _ _ _ _ Ha Hb) in Hj. injection Hj as <-.
  case_bool_decide; [done|].
  assert (sa ∩ sb = ∅) as ->.
  { unfold py_or in Ha, Hb.
    destruct Hab as [Hf|Hf]; rewrite Hf in *; cbn in *.
    - injection Ha as <-. apply (left_absorb_L ∅ (∩)).
    - injection Hb as <-. apply (right_absorb_L ∅ (∩)). }
  rewrite size_empty. unfold Qdiv. by rewrite Qmult_0_l.
Qed.

(** X17. A user whose skills are absent, null or empty gets
    score 0 for every job returned. *)
Theorem no_skills_no_score db uid top_k user r :
  find_one (collection db "userprofile") uid = Some user →
  truthy (dict_get (doc_fields user) "skills" (VList [])) = false →
  recommend_jobs db uid top_k = Ok r →
  Forall (λ rec, (Recommendation.score rec == 0)%Q)
         (Recommendations.recommendations r).
Proof.
  intros Hfind Hskills (user' & scored & Hfind' & Hm & ->)%recommend_jobs_Ok_inv.
  rewrite Hfind in Hfind'. injection Hfind' as <-. cbn.
  apply mapM_Ok_Forall2 in Hm.
  assert (Forall (λ rec, (Recommendation.score rec == 0)%Q) scored) as Hall.
  { clear -Hm Hskills.
    induction Hm as [|job rec jobs recs Hjob _ IH]; constructor; [|done].
    rewrite score_job_eq in Hjob.
    destruct (jaccard _ _) as [j|] eqn:Hj; [|done]. cbn in Hjob.
    injection Hjob as <-. cbn.
    apply jaccard_empty_side in Hj; [|by left].
    assert ((if under_experienced (doc_fields user) job
             then j * (8 # 10) else j) == 0)%Q
      as Hz by (destruct (under_experienced _ _); rewrite Hj; lra).
    by rewrite (round3_proper _ _ Hz). }
  destruct (slice_to_prefix top_k (sort_desc scored)) as [rest Hrest].
  rewrite <-(sort_desc_Permutation scored), Hrest in Hall.
  by apply Forall_app in Hall as [? _].
Qed.

Lemma mapM_Ok_iff {E A B} (f : A → result E B) (l : list A) :
  is_Ok (mapM f l) ↔ Forall (λ x, is_Ok (f x)) l.
Proof.
  induction l as [|x l IH]; cbn; [by split; [constructor|]|].
  rewrite Forall_cons, <-IH.
  destruct (f x); cbn; [|tauto]. destruct (mapM f l); cbn; tauto.
Qed.

(** X18. For a stored user [recommend_jobs] returns exactly
    when the skills and the requirements of every scanned job are values
    [jaccard] accepts (with no job scanned it returns the empty list,
    whatever the skills are). *)
Theorem recommend_jobs_fails_iff db uid top_k user :
  find_one (collection db "userprofile") uid = Some user →
  let skills := dict_get (doc_fields user) "skills" (VList []) in
  let jobs := get_documents db "job" 1000 in
  (is_Ok (recommend_jobs db uid top_k)
   ↔ Forall (λ job, set_like skills
                    ∧ set_like (dict_get job "requirements" (VList []))) jobs)
  ∧ (jobs = [] →
     recommend_jobs db uid top_k
     = Ok {| Recommendations.user_id := uid;
             Recommendations.recommendations := [] |}).
Proof.
  intros Hfind skills jobs. unfold recommend_jobs. rewrite Hfind. fold jobs.
  split.
  - transitivity (is_Ok (mapM (score_job (doc_fields user)) jobs)).
    { by destruct (mapM _ jobs). }
    rewrite mapM_Ok_iff. apply Forall_proper; [|done]. intros job.
    rewrite score_job_eq. fold skills.
    rewrite <-jaccard_Ok_iff.
    by destruct (jaccard _ _).
  - intros Hjobs. unfold jobs in *. rewrite Hjobs. cbn.
    unfold slice_to. by destruct (0 <=? top_k)%Z; rewrite take_nil.
Qed.

(** ** Profile upsert: creation, invariant, idempotence *)

Lemma find_one_None_Forall c uid :
  find_one c uid = None ↔ Forall (λ d, matches_user_id uid d = false) c.
Proof.
  unfold find_one. induction c as [|d c IH]; cbn; [by split; [constructor|]|].
  rewrite Forall_cons. destruct (matches_user_id uid d); [|by rewrite IH; tauto].
  split; [done | by intros [? _]].
Qed.

Lemma find_all_nil_iff c uid :
  find_all c uid = [] ↔ Forall (λ d, matches_user_id uid d = false) c.
Proof.
  unfold find_all. induction c as [|d c IH]; cbn; [by split; [constructor|]|].
  rewrite Forall_cons. destruct (matches_user_id uid d); [|by rewrite IH; tauto].
  split; [done | by intros [? _]].
Qed.

Lemma matches_upsert_data p id uid :
  matches_user_id uid (Doc id (upsert_data p))
  = String.eqb (UpsertUserProfileRequest.user_id p) uid.
Proof.
  unfold matches_user_id, upsert_data. cbn [doc_fields].
  by rewrite upsert_data_lookup, supplied_user_id.
Qed.

Lemma matches_merged p existing uid :
  matches_user_id (UpsertUserProfileRequest.user_id p) existing = true →
  matches_user_id uid
    (Doc (doc_id existing) (upsert_data p ∪ doc_fields existing))
  = matches_user_id uid existing.
Proof.
  unfold matches_user_id. cbn [doc_fields].
  rewrite lookup_union. unfold upsert_data.
  rewrite upsert_data_lookup, supplied_user_id.
  destruct (doc_fields existing !! "user_id") as [[]|]; cbn; try done.
  by intros ->%String.eqb_eq.
Qed.

Lemma upsert_user_profile_create db p :
  find_one (collection db "userprofile") (UpsertUserProfileRequest.user_id p)
  = None →
  (upsert_user_profile db p).1
  = <["userprofile" :=
        (collection db "userprofile"
         ++ [Doc (fresh_id (collection db "userprofile")) (upsert_data p)])]> db.
Proof. intros Hfind. unfold upsert_user_profile. by rewrite Hfind. Qed.

Lemma upsert_user_profile_update db p existing pre post :
  NoDup (doc_id <$> collection db "userprofile") →
  collection db "userprofile" = pre ++ existing :: post →
  find_one (collection db "userprofile") (UpsertUserProfileRequest.user_id p)
  = Some existing →
  (upsert_user_profile db p).1
  = <["userprofile" :=
        (pre ++ Doc (doc_id existing) (upsert_data p ∪ doc_fields existing)
             :: post)]> db.
Proof.
  intros Hids Husers Hfind. unfold upsert_user_profile. rewrite Hfind. cbn.
  f_equal. rewrite Husers. apply update_one_set_app_cons.
  rewrite Husers, fmap_app, fmap_cons in Hids.
  apply NoDup_app in Hids as (_ & Hdisj & _).
  intros Hin. apply (Hdisj _ Hin). by left.
Qed.

Lemma collection_insert db name c : collection (<[name := c]> db) name = c.
Proof. unfold collection. by rewrite lookup_insert_eq. Qed.

Lemma collection_insert_ne db name name' c :
  name ≠ name' → collection (<[name := c]> db) name' = collection db name'.
Proof. intros Hne. unfold collection. by rewrite lookup_insert_ne. Qed.

(** X1. When no stored profile has the request's [user_id],
    [upsert_user_profile] appends one profile to "userprofile" under an
    [_id] no stored profile has; its fields are exactly the request's
    non-null fields, a lookup by the [user_id] now finds it, and every
    other collection is as it was. *)
Theorem upsert_creates_profile db p :
  let uid := UpsertUserProfileRequest.user_id p in
  let users := collection db "userprofile" in
  let db' := (upsert_user_profile db p).1 in
  find_one users uid = None →
  ∃ created,
    collection db' "userprofile" = users ++ [created]
    ∧ (doc_id created ∉ doc_id <$> users)
    ∧ (∀ k, doc_fields created !! k = supplied p k)
    ∧ find_one (collection db' "userprofile") uid = Some created
    ∧ (∀ name, name ≠ "userprofile" → db' !! name = db !! name).
Proof.
  intros uid users db' Hfind. subst db'.
  rewrite (upsert_user_profile_create _ _ Hfind). fold users.
  exists (Doc (fresh_id users) (upsert_data p)). rewrite collection_insert.
  split_and!; [done | apply fresh_id_fresh | apply upsert_data_lookup | |].
  - apply find_one_None_Forall in Hfind.
    apply find_one_app_cons; [done|].
    rewrite matches_upsert_data. apply String.eqb_refl.
  - intros name Hne. by rewrite lookup_insert_ne.
Qed.

Lemma find_all_app c1 c2 uid :
  find_all (c1 ++ c2) uid = find_all c1 uid ++ find_all c2 uid.
Proof. apply List.filter_app. Qed.

(** X2. [upsert_user_profile] keeps the identifiers of every
    collection distinct and keeps at most one profile per [user_id]. *)
Theorem upsert_keeps_one_profile_per_user db p :
  unique_ids db → one_profile_per_user db →
  unique_ids (upsert_user_profile db p).1
  ∧ one_profile_per_user (upsert_user_profile db p).1.
Proof.
  intros Hids Hone. split; [by apply upsert_user_profile_unique_ids|].
  intros uid. specialize (Hone uid).
  destruct (find_one (collection db "userprofile")
              (UpsertUserProfileRequest.user_id p)) as [existing|] eqn:Hfind.
  - destruct (find_one_Some_split _ _ _ Hfind) as (pre & post & Husers & _ & Hm).
    rewrite (upsert_user_profile_update _ _ _ _ _ (Hids _) Husers Hfind).
    rewrite collection_insert. rewrite Husers in Hone.
    rewrite find_all_app in Hone |- *. unfold find_all in *.
    cbn [List.filter] in *. rewrite (matches_merged _ _ _ Hm).
    rewrite length_app in Hone |- *.
    by destruct (matches_user_id uid existing).
  - rewrite (upsert_user_profile_create _ _ Hfind), collection_insert.
    rewrite find_all_app. unfold find_all at 2. cbn [List.filter].
    rewrite matches_upsert_data.
    destruct (String.eqb_spec (UpsertUserProfileRequest.user_id p) uid)
      as [<-|Hne]; cbn.
    + apply find_one_None_Forall, find_all_nil_iff in Hfind. by rewrite Hfind.
    + rewrite length_app. cbn. lia.
Qed.

(** X3. Submitting the same profile request twice leaves the
    store as submitting it once does, provided the stored profiles have
    distinct identifiers. *)
Theorem upsert_is_idempotent db p :
  NoDup (doc_id <$> collection db "userprofile") →
  (upsert_user_profile (upsert_user_profile db p).1 p).1
  = (upsert_user_profile db p).1.
Proof.
  intros Hids.
  destruct (find_one (collection db "userprofile")
              (UpsertUserProfileRequest.user_id p)) as [existing|] eqn:Hfind.
  - destruct (find_one_Some_split _ _ _ Hfind) as (pre & post & Husers & Hpre & Hm).
    rewrite (upsert_user_profile_update _ _ _ _ _ Hids Husers Hfind).
    set (merged := Doc (doc_id existing) (upsert_data p ∪ doc_fields existing)).
    rewrite (upsert_user_profile_update _ _ merged pre post).
    + rewrite insert_insert_eq. do 3 f_equal. subst merged. cbn. f_equal.
      by rewrite (assoc_L (∪)), (idemp_L (∪)).
    + rewrite collection_insert. rewrite Husers in Hids.
      by rewrite !fmap_app in Hids |- *.
    + by rewrite collection_insert.
    + rewrite collection_insert. apply find_one_app_cons; [done|].
      subst merged. by rewrite (matches_merged _ _ _ Hm).
  - rewrite (upsert_user_profile_create _ _ Hfind).
    set (users := collection db "userprofile").
    set (created := Doc (fresh_id users) (upsert_data p)).
    rewrite (upsert_user_profile_update _ _ created users []).
    + rewrite insert_insert_eq. do 3 f_equal. subst created. cbn. f_equal.
      by rewrite (idemp_L (∪)).
    + rewrite collection_insert, fmap_app. apply NoDup_app.
      split; [done|]. split; [|apply NoDup_singleton].
      intros x Hx ->%list_elem_of_singleton. by apply (fresh_id_fresh users).
    + by rewrite collection_insert.
    + rewrite collection_insert. apply find_one_app_cons.
      * by apply find_one_None_Forall.
      * subst created. rewrite matches_upsert_data. apply String.eqb_refl.
Qed.

(** ** Composition of the endpoints *)

Lemma update_one_set_matches c id (data : gmap string pyval) uid :
  data !! "user_id" = Some (VStr uid) →
  id ∈ (doc_id <$> c) →
  Exists (λ d, matches_user_id uid d = true) (update_one_set c id data).
Proof.
  intros Hdata. induction c as [|d c IH]; cbn; [by intros ?%elem_of_nil|].
  destruct (N.eqb_spec (doc_id d) id) as [Heq|Hne].
  - intros _. apply Exists_cons_hd.
    unfold matches_user_id. cbn [doc_fields].
    rewrite lookup_union, Hdata.
    destruct (doc_fields d !! "user_id"); cbn; apply String.eqb_refl.
  - intros [?|Hin]%elem_of_cons; [done|]. apply Exists_cons_tl. by apply IH.
Qed.

Lemma find_one_is_Some c uid :
  Exists (λ d, matches_user_id uid d = true) c → is_Some (find_one c uid).
Proof.
  intros Hex. destruct (find_one c uid) eqn:Hfind; [done|].
  apply find_one_None_Forall in Hfind.
  apply Exists_exists in Hex as (d & Hd & Hm).
  rewrite Forall_forall in Hfind. specialize (Hfind d Hd). congruence.
Qed.

Lemma upsert_then_find_one db p :
  is_Some (find_one (collection (upsert_user_profile db p).1 "userprofile")
             (UpsertUserProfileRequest.user_id p)).
Proof.
  apply find_one_is_Some. unfold upsert_user_profile.
  destruct (find_one (collection db "userprofile") _) as [existing|] eqn:Hfind;
    cbn [fst].
  - rewrite collection_insert. apply update_one_set_matches.
    { by rewrite upsert_data_lookup, supplied_user_id. }
    destruct (find_one_Some_split _ _ _ Hfind) as (pre & post & -> & _).
    rewrite fmap_app, fmap_cons. apply elem_of_app. right. by left.
  - unfold create_document. rewrite collection_insert.
    apply Exists_app. right. apply Exists_cons_hd.
    fold (upsert_data p). rewrite matches_upsert_data. apply String.eqb_refl.
Qed.

(** X4. After [upsert_user_profile] the request's user is
    found, so [recommend_jobs] for that user never answers 404; the jobs it
    scans are those of the store before the upsert. *)
Theorem upsert_then_recommend db p top_k :
  let db' := (upsert_user_profile db p).1 in
  let uid := UpsertUserProfileRequest.user_id p in
  is_Some (find_one (collection db' "userprofile") uid)
  ∧ (∀ detail, recommend_jobs db' uid top_k ≠ Raise (HTTPException 404 detail))
  ∧ (get_documents db' "job" 1000 = get_documents db "job" 1000).
Proof.
  intros db' uid. split; [apply upsert_then_find_one|]. split.
  - intros detail. unfold recommend_jobs.
    destruct (upsert_then_find_one db p) as [user Huser].
    fold db' uid in Huser. rewrite Huser.
    destruct (mapM _ _); cbn; [done|]. by intros [=].
  - unfold get_documents, db', upsert_user_profile.
    destruct (find_one _ _); cbn; [by rewrite collection_insert_ne|].
    unfold create_document. by rewrite collection_insert_ne.
Qed.

(** X5. [track_event] appends exactly one document to "event",
    under a fresh identifier, and answers status "ok".  The document has the
    request's [event_type] under "type" and no "event_type" key, carries the
    five other request fields with [None] for the ones not given, and has
    no further key; every other collection is as it was. *)
Theorem track_event_stores_one_event db p :
  let db' := (track_event db p).1 in
  let stored := event_document p in
  (∃ id, collection db' "event" = collection db "event" ++ [Doc id stored]
         ∧ id ∉ (doc_id <$> collection db "event"))
  ∧ stored !! "type" = Some (VStr (TrackEventRequest.event_type p))
  ∧ stored !! "event_type" = None
  ∧ stored !! "user_id" = Some (opt_val VStr (TrackEventRequest.user_id p))
  ∧ stored !! "page" = Some (opt_val VStr (TrackEventRequest.page p))
  ∧ stored !! "service" = Some (opt_val VStr (TrackEventRequest.service p))
  ∧ stored !! "device" = Some (opt_val VStr (TrackEventRequest.device p))
  ∧ stored !! "properties" = Some (VDict (TrackEventRequest.properties p))
  ∧ dom stored = {["type"; "user_id"; "page"; "service"; "device"; "properties"]}
  ∧ (∀ name, name ≠ "event" → db' !! name = db !! name)
  ∧ (track_event db p).2 = Ok {| status := "ok" |}.
Proof.
  intros db' stored. split_and!; try reflexivity.
  - exists (fresh_id (collection db "event")). split; [|apply fresh_id_fresh].
    unfold db', track_event, create_document. cbn [fst].
    by rewrite collection_insert.
  - intros name Hne. unfold db', track_event, create_document. cbn [fst].
    by rewrite lookup_insert_ne.
Qed.

(** X19. [track_event] changes neither the success rates nor
    the recommendations, and [upsert_user_profile] changes no success
    rate. *)
Theorem writes_leave_other_collections db uid top_k ev p :
  success_rate (track_event db ev).1 uid = success_rate db uid
  ∧ recommend_jobs (track_event db ev).1 uid top_k = recommend_jobs db uid top_k
  ∧ success_rate (upsert_user_profile db p).1 uid = success_rate db uid.
Proof.
  assert (∀ name, name ≠ "event" →
            collection (track_event db ev).1 name = collection db name) as Hev.
  { intros name Hne. unfold track_event, create_document. cbn [fst].
    by rewrite collection_insert_ne. }
  assert (∀ name, name ≠ "userprofile" →
            collection (upsert_user_profile db p).1 name = collection db name)
    as Hup.
  { intros name Hne. unfold upsert_user_profile.
    destruct (find_one _ _); cbn [fst]; [by rewrite collection_insert_ne|].
    unfold create_document. by rewrite collection_insert_ne. }
  split_and!.
  - unfold success_rate. by rewrite Hev.
  - unfold recommend_jobs, get_documents. by rewrite !Hev.
  - unfold success_rate. by rewrite Hup.
Qed.

Lemma default_nonzero n : default 0 (nonzero n) = n.
Proof. by destruct n. Qed.

Lemma count_keyed_snoc {A} (val : A → pyval) k (l : list A) (x : A) :
  count_keyed val k (l ++ [x])
  = count_keyed val k l + Nat.b2n (keyed_by k (val x)).
Proof.
  unfold count_keyed. rewrite List.filter_app, length_app. cbn.
  by destruct (keyed_by k (val x)).
Qed.

Lemma event_document_channel p :
  chosen_channel (event_document p)
  = py_or (dict_get (TrackEventRequest.properties p) "channel" VNone) VNone.
Proof. reflexivity. Qed.

Lemma keyed_by_py_or_None k v : keyed_by k (py_or v VNone) = keyed_by k v.
Proof. unfold py_or, keyed_by. by destruct (truthy v) eqn:Hv; rewrite ?Hv. Qed.

Lemma event_document_well_formed p :
  tallies (dict_get (TrackEventRequest.properties p) "channel" VNone) →
  event_well_formed (event_document p).
Proof.
  intros Hch. split_and!.
  - done.
  - rewrite event_document_channel. unfold py_or. by destruct (truthy _).
  - change (dict_get (event_document p) "page" VNone)
      with (opt_val VStr (TrackEventRequest.page p)).
    by destruct (TrackEventRequest.page p).
Qed.

(** X6. If the overview of a store is returned and its event
    scan is not cut by [limit], then after [track_event] of a request whose
    "channel" property the tables can count, the overview is returned again
    with one more event in the samples, the request's page and channel
    counted once more when truthy, and the demographics unchanged. *)
Theorem tracked_event_is_counted db p limit r :
  analytics_overview db limit = Ok r →
  length (collection db "event") < Z.to_nat limit →
  tallies (dict_get (TrackEventRequest.properties p) "channel" VNone) →
  ∃ r', analytics_overview (track_event db p).1 limit = Ok r'
    ∧ events (samples r') = S (events (samples r))
    ∧ (∀ k, pages r' !! k
            = nonzero (default 0 (pages r !! k)
                       + Nat.b2n (keyed_by k (opt_val VStr
                                                (TrackEventRequest.page p)))))
    ∧ (∀ k, channels r' !! k
            = nonzero (default 0 (channels r !! k)
                       + Nat.b2n (keyed_by k
                                    (dict_get (TrackEventRequest.properties p)
                                       "channel" VNone))))
    ∧ demographics r' = demographics r.
Proof.
  intros Hr Hlimit Hch. unfold analytics_overview in *.
  set (evs := get_documents db "event" limit) in *.
  set (usrs := get_documents db "userprofile" limit) in *.
  assert (get_documents (track_event db p).1 "userprofile" limit = usrs) as ->.
  { unfold get_documents, track_event, create_document. cbn [fst].
    by rewrite collection_insert_ne. }
  assert (get_documents (track_event db p).1 "event" limit
          = evs ++ [event_document p]) as ->.
  { unfold evs, get_documents, track_event, create_document. cbn [fst].
    rewrite collection_insert, fmap_app.
    rewrite take_app_ge by (rewrite length_fmap; lia).
    rewrite (take_ge (doc_fields <$> collection db "event"))
      by (rewrite length_fmap; lia).
    f_equal. apply take_ge. rewrite !length_fmap. cbn. lia. }
  destruct (summarize evs usrs) as [r0|] eqn:Hr0; [|done].
  injection Hr as <-.
  assert (is_Ok (summarize (evs ++ [event_document p]) usrs)) as Hok.
  { assert (is_Ok (summarize evs usrs)) as [Hevs Husrs]%summarize_Ok_iff
      by (by rewrite Hr0).
    apply summarize_Ok_iff. split; [|done].
    apply Forall_app. split; [done|].
    apply Forall_singleton. by apply event_document_well_formed. }
  destruct (summarize (evs ++ [event_document p]) usrs) as [r'|] eqn:Hr';
    [|done].
  exists r'. split; [done|].
  pose proof (summarize_tables _ _ _ Hr0) as (Hc & Hp & _ & _ & _ & _ & Hs).
  pose proof (summarize_tables _ _ _ Hr') as (Hc' & Hp' & _ & _ & _ & _ & Hs').
  split_and!.
  - rewrite Hs, Hs'. cbn. rewrite length_app. cbn. lia.
  - intros k. by rewrite Hp', Hp, default_nonzero, count_keyed_snoc.
  - intros k. rewrite Hc', Hc, default_nonzero, count_keyed_snoc.
    by rewrite event_document_channel, keyed_by_py_or_None.
  - apply summarize_Ok_inv in Hr0 as (? & dm & _ & Hdm & ->).
    apply summarize_Ok_inv in Hr' as (? & dm' & _ & Hdm' & ->).
    cbn. congruence.
Qed.

(** ** Health check and bounds *)

(** X21. The health report always says the backend runs and
    never keeps the initial or the intermediate database status; it says
    "Connected" exactly when there is a database handle, and leaves the
    "database_url" entry null exactly when there is none; it lists at most
    10 collections, the first 10 of those the handle names, and lists any
    only when the status is "Connected & Working". *)
Theorem test_database_report db url name :
  let response := test_database db url name in
  response !! "backend" = Some (VStr "✅ Running")
  ∧ response !! "database" ≠ Some (VStr "❌ Not Available")
  ∧ response !! "database" ≠ Some (VStr "✅ Available")
  ∧ (response !! "connection_status" = Some (VStr "Connected") ↔ is_Some db)
  ∧ (response !! "database_url" = Some VNone ↔ db = None)
  ∧ (∃ names, response !! "collections" = Some (str_list names)
              ∧ length names ≤ 10
              ∧ (∀ listed, db = Some (Ok listed) → names = take 10 listed)
              ∧ (names ≠ [] →
                 response !! "database" = Some (VStr "✅ Connected & Working"))).
Proof.
  intros response. subst response.
  assert (∀ v, env_report v ≠ VNone) as Henv
    by (intros v; unfold env_report; by destruct (truthy _)).
  destruct db as [[listed|e]|].
  - split; [reflexivity|]. split; [by intros [=]|]. split; [by intros [=]|].
    split; [split; [by eexists | reflexivity]|].
    split; [split; [intros [= H]; by apply Henv in H | done]|].
    exists (take 10 listed). split; [reflexivity|].
    split; [rewrite length_take; lia|]. split; [by intros ? [= <-]|].
    reflexivity.
  - split; [reflexivity|]. split; [by intros [=]|]. split; [by intros [=]|].
    split; [split; [by eexists | reflexivity]|].
    split; [split; [intros [= H]; by apply Henv in H | done]|].
    exists []. split; [reflexivity|]. split; [cbn; lia|]. by split.
  - split; [reflexivity|]. split; [by intros [=]|]. split; [by intros [=]|].
    split; [split; [by intros [=] | by intros [? [=]]]|].
    split; [by split|].
    exists []. split; [reflexivity|]. split; [cbn; lia|]. by split.
Qed.




(** X20. [success_rate] reports [success <= total] and a rate
    between 0 and 1, which is 0 when no outcome is a success and 1 when
    every outcome of a user with outcomes is. *)
Theorem success_rate_bounds db uid :
  ∃ r, success_rate db uid = Ok r
       ∧ SuccessRate.success r ≤ SuccessRate.total r
       ∧ (0 <= SuccessRate.rate r <= 1)%Q
       ∧ (SuccessRate.success r = 0 → (SuccessRate.rate r == 0)%Q)
       ∧ (SuccessRate.success r = SuccessRate.total r →
          SuccessRate.total r ≠ 0 → (SuccessRate.rate r == 1)%Q).
Proof.
  unfold success_rate. cbn.
  set (outcomes := find_all (collection db "applicationoutcome") uid).
  set (success := length (List.filter _ outcomes)).
  assert (success ≤ length outcomes) as Hle.
  { subst success. clear. induction outcomes as [|o l IH]; cbn; [done|].
    destruct (str_lower_is_success _); cbn; lia. }
  eexists. split; [done|]. cbn. split; [done|].
  destruct (Nat.eqb_spec (length outcomes) 0) as [Hz|Hnz].
  - split; [done|]. split; [done|]. intros _ ?. done.
  - assert (0 <= inject_Z (Z.of_nat success) / inject_Z (Z.of_nat (length outcomes))
            <= 1)%Q as Hrange.
    { assert (0 < inject_Z (Z.of_nat (length outcomes)))%Q as Hpos.
      { change 0%Q with (inject_Z 0). rewrite <-Zlt_Qlt. lia. }
      split.
      - apply Qle_shift_div_l; [done|]. rewrite Qmult_0_l.
        change 0%Q with (inject_Z 0). rewrite <-Zle_Qle. lia.
      - apply Qle_shift_div_r; [done|]. rewrite Qmult_1_l, <-Zle_Qle. lia. }
    split; [by apply round3_range|]. split.
    + intros Hs. rewrite (round3_proper _ 0); [done|].
      by apply ratio_eq_0.
    + intros Hs _. rewrite (round3_proper _ 1); [done|].
      by apply ratio_eq_1.
Qed.

(** ** Worked examples *)

Lemma overview_sample_summarized :
  is_Ok (summarize overview_events overview_users).
Proof. exact I. Qed.

Lemma page_counts_truthy_witness :
  ∃ r, summarize overview_events overview_users = Ok r
       ∧ pages r !! KStr "home" = Some 2
       ∧ pages r !! KStr "jobs" = Some 1.
Proof.
  destruct (is_Ok_inv _ overview_sample_summarized) as [r Hr].
  exists r. split; [exact Hr|].
  rewrite !(page_counts_truthy _ _ _ Hr). split; reflexivity.
Defined.

Lemma demographic_counts_truthy_witness :
  ∃ r, summarize overview_events overview_users = Ok r
       ∧ gender (demographics r) !! KStr "F" = Some 1
       ∧ education (demographics r) !! KStr "BSc" = Some 1
       ∧ location (demographics r) !! KStr "Pune" = Some 2.
Proof.
  destruct (is_Ok_inv _ overview_sample_summarized) as [r Hr].
  exists r. split; [exact Hr|].
  destruct (demographic_counts_truthy _ _ _ Hr (KStr "F")) as (-> & _ & _).
  destruct (demographic_counts_truthy _ _ _ Hr (KStr "BSc")) as (_ & -> & _).
  destruct (demographic_counts_truthy _ _ _ Hr (KStr "Pune")) as (_ & _ & ->).
  repeat split; reflexivity.
Defined.

Lemma summarize_scan_order_witness :
  summarize (reverse overview_events) (reverse overview_users)
  = summarize overview_events overview_users.
Proof.
  destruct (is_Ok_inv _ overview_sample_summarized) as [r Hr].
  rewrite Hr.
  apply (summarize_scan_order overview_events _ overview_users _ r);
    [apply Permutation_sym, reverse_Permutation ..| exact Hr].
Defined.

Lemma analytics_overview_fails_iff_malformed_witness :
  ∃ detail, analytics_overview malformed_db 50 = Raise (HTTPException 500 detail).
Proof.
  destruct (analytics_overview_fails_iff_malformed malformed_db 50)
    as [Hiff Hstatus].
  destruct (analytics_overview malformed_db 50) as [r|e] eqn:Hrun.
  - exfalso. destruct (proj1 Hiff I) as [Hevs _].
    apply Forall_cons in Hevs as [(Hprops & _) _]. discriminate Hprops.
  - destruct (Hstatus e eq_refl) as [detail ->]. by exists detail.
Defined.

Example malformed_event_message :
  analytics_overview malformed_db 50
  = Raise (HTTPException 500 "'str' object has no attribute 'get'").
Proof. reflexivity. Qed.

Lemma upsert_creates_profile_witness :
  ∃ created,
    collection db_age_30 "userprofile" = [created]
    ∧ doc_fields created !! "age" = Some (VInt 30)
    ∧ doc_fields created !! "name" = None.
Proof.
  destruct (upsert_creates_profile ∅ profile_age_30)
    as (created & Hcoll & _ & Hfields & _); [reflexivity|].
  exists created. split; [exact Hcoll|]. rewrite !Hfields. split; reflexivity.
Defined.

Lemma upsert_keeps_one_profile_per_user_witness :
  unique_ids db_age_30 ∧ one_profile_per_user db_age_30.
Proof.
  apply (upsert_keeps_one_profile_per_user ∅ profile_age_30).
  - apply unique_ids_empty.
  - intros uid. unfold collection. rewrite lookup_empty. cbn. lia.
Defined.

Lemma upsert_is_idempotent_witness :
  (upsert_user_profile (upsert_user_profile db_age_30 profile_name_A).1
     profile_name_A).1
  = (upsert_user_profile db_age_30 profile_name_A).1.
Proof.
  apply (upsert_is_idempotent db_age_30 profile_name_A).
  by apply (bool_decide_unpack _).
Defined.

Lemma upsert_then_recommend_witness :
  recommend_jobs db_age_30 "u1" 5
  ≠ Raise (HTTPException 404 "User not found").
Proof.
  apply (upsert_then_recommend ∅ profile_age_30 5).
Defined.

Lemma track_event_stores_one_event_witness :
  (track_event sample_db page_view_home).1 !! "job" = sample_db !! "job".
Proof.
  apply (track_event_stores_one_event sample_db page_view_home). done.
Defined.

Lemma tracked_event_is_counted_witness :
  ∃ r', analytics_overview (track_event sample_db page_view_home).1 50 = Ok r'
        ∧ events (samples r') = 1
        ∧ pages r' !! KStr "home" = Some 1
        ∧ channels r' !! KStr "tv" = Some 1.
Proof.
  assert (is_Ok (analytics_overview sample_db 50)) as [r Hr]%is_Ok_inv
    by exact I.
  destruct (tracked_event_is_counted sample_db page_view_home 50 r Hr)
    as (r' & Hr' & Hev & Hpages & Hchannels & _).
  - apply Nat.ltb_lt. reflexivity.
  - exact I.
  - exists r'. split; [exact Hr'|].
    assert (pages <$> analytics_overview sample_db 50 = Ok ∅) as Hp
      by reflexivity.
    assert (channels <$> analytics_overview sample_db 50 = Ok ∅) as Hc
      by reflexivity.
    assert ((events ∘ samples) <$> analytics_overview sample_db 50 = Ok 0)
      as He by reflexivity.
    rewrite Hr in Hp, Hc, He. cbn in Hp, Hc, He.
    injection Hp as Hp. injection Hc as Hc. injection He as He.
    rewrite Hev, Hpages, Hchannels, Hp, Hc, He. repeat split; reflexivity.
Defined.


Lemma jaccard_extremes_witness :
  ∃ j, jaccard (str_list ["sql"; "python"]) (str_list ["python"; "sql"; "sql"])
       = Ok j ∧ (j == 1)%Q.
Proof.
  destruct (jaccard_extremes ["sql"; "python"] ["python"; "sql"; "sql"])
    as (j & Hj & Hone & _).
  exists j. split; [exact Hj|]. apply Hone. split.
  - apply set_eq. intros x. rewrite !elem_of_list_to_set, !elem_of_cons,
      !elem_of_nil. tauto.
  - intros Hempty.
    assert ("sql" ∈ (list_to_set ["sql"; "python"] : gset string)) as Hin
      by (rewrite elem_of_list_to_set; by left).
    rewrite Hempty in Hin. by apply elem_of_empty in Hin.
Defined.

Lemma jaccard_any_values_witness :
  ∃ msg, jaccard (VInt 5) (str_list ["python"]) = Raise (TypeError msg).
Proof.
  destruct (jaccard_any_values (VInt 5) (str_list ["python"]))
    as (_ & Herr & _).
  destruct (Herr (TypeError "'int' object is not iterable") eq_refl)
    as [msg Hmsg].
  exists msg. by rewrite <-Hmsg.
Defined.

Lemma tie_db_recommends : is_Ok (recommend_jobs tie_db "u1" 5).
Proof. exact I. Qed.

Lemma ranking_is_stable_witness :
  ∃ r scored,
    recommend_jobs tie_db "u1" 5 = Ok r
    ∧ with_score (1 # 2) (Recommendations.recommendations r)
      `prefix_of` with_score (1 # 2) scored.
Proof.
  destruct (is_Ok_inv _ tie_db_recommends) as [r Hr].
  destruct (ranking_is_stable tie_db "u1" 5 r Hr)
    as (user & scored & _ & _ & Hstable).
  exists r, scored. split; [exact Hr | apply Hstable].
Defined.

(** Jobs A and C score alike and stay in scan order, behind B. *)
Example ranking_of_a_tie :
  (λ r, Recommendation.job_id <$> Recommendations.recommendations r)
    <$> recommend_jobs tie_db "u1" 5
  = Ok [VStr "B"; VStr "A"; VStr "C"].
Proof. reflexivity. Qed.

Lemma top_k_selection_witness :
  ∃ r, recommend_jobs tie_db "u1" (-1) = Ok r
       ∧ length (Recommendations.recommendations r) = 2.
Proof.
  assert (is_Ok (recommend_jobs tie_db "u1" (-1))) as [r Hr]%is_Ok_inv
    by exact I.
  exists r. split; [exact Hr|].
  destruct (top_k_selection tie_db "u1" (-1) r Hr)
    as (_ & _ & _ & _ & _ & _ & _ & Hlen).
  rewrite Hlen. reflexivity.
Defined.


Lemma no_skills_no_score_witness :
  ∃ r, recommend_jobs no_skills_db "u1" 5 = Ok r
       ∧ Forall (λ rec, (Recommendation.score rec == 0)%Q)
                (Recommendations.recommendations r).
Proof.
  assert (is_Ok (recommend_jobs no_skills_db "u1" 5)) as [r Hr]%is_Ok_inv
    by exact I.
  exists r. split; [exact Hr|].
  apply (no_skills_no_score no_skills_db "u1" 5
           (Doc 1 {[ "user_id" := VStr "u1" ]}) r); [reflexivity ..| exact Hr].
Defined.

Lemma recommend_jobs_fails_iff_witness :
  is_Ok (recommend_jobs sample_db "u1" 5)
  ↔ Forall (λ job, set_like (dict_get user_req "skills" (VList []))
                   ∧ set_like (dict_get job "requirements" (VList [])))
           (get_documents sample_db "job" 1000).
Proof.
  apply (recommend_jobs_fails_iff sample_db "u1" 5 (Doc 1 user_req)).
  reflexivity.
Defined.

Lemma success_rate_bounds_witness :
  ∃ r, success_rate outcomes_db "u2" = Ok r ∧ (SuccessRate.rate r == 1)%Q.
Proof.
  destruct (success_rate_bounds outcomes_db "u2")
    as (r & Hr & _ & _ & _ & Hall).
  exists r. split; [exact Hr|].
  assert (Ok r = success_rate outcomes_db "u2") as Heq by done.
  apply Hall.
  - assert ((λ r, (SuccessRate.success r, SuccessRate.total r))
              <$> success_rate outcomes_db "u2" = Ok (1, 1)) as H by reflexivity.
    rewrite Hr in H. cbn in H. by injection H as -> ->.
  - assert (SuccessRate.total <$> success_rate outcomes_db "u2" = Ok 1) as H
      by reflexivity.
    rewrite Hr in H. cbn in H. by injection H as ->.
Defined.

Lemma test_database_report_witness :
  test_database (Some (Ok ["event"; "job"])) (Some "mongodb://db") None
    !! "database" = Some (VStr "✅ Connected & Working").
Proof.
  destruct (test_database_report (Some (Ok ["event"; "job"]))
              (Some "mongodb://db") None)
    as (_ & _ & _ & _ & _ & names & Hnames & _ & Hlisted & Hworking).
  apply Hworking. rewrite (Hlisted _ eq_refl). done.
Defined.
